(** * delete-react-zombies: discovery, usage resolution and deletion

    A shallow embedding of [src/index.ts].  The program walks a directory
    tree, asks react-docgen for the display name of every eligible file,
    keeps the components whose name no scanned file imports, and deletes
    them (all at once with [--force], one confirmation at a time
    otherwise).

    Strings are [string]; JavaScript arrays are lists; a thrown exception
    is the [inl] of a result; the calls the program makes on the outside
    world (filesystem, console, spinner, prompt, delete) are recorded in
    order in a trace of events. *)

From Stdlib Require Import String Ascii List Bool Arith Lia.
From Stdlib Require Import Decimal DecimalString.
Import ListNotations.

Set Implicit Arguments.
Set Warnings "-register-all".

Open Scope string_scope.
Open Scope list_scope.

(** ** JavaScript strings *)

(** [s.includes(search)]: [search] occurs somewhere in [s]. *)
Fixpoint includes (s search : string) : bool :=
  if String.prefix search s then true
  else match s with
       | EmptyString => false
       | String _ rest => includes rest search
       end.

(** Truthiness of a string: only the empty string is falsy. *)
Definition nonEmpty (s : string) : bool :=
  match s with
  | EmptyString => false
  | String _ _ => true
  end.

(** Truthiness of an optional string option of yargs: [undefined] and the
    empty string are falsy. *)
Definition truthy (o : option string) : bool :=
  match o with
  | None => false
  | Some s => nonEmpty s
  end.

(** [`${n}`] for a length. *)
Definition showNat (n : nat) : string := NilEmpty.string_of_uint (Nat.to_uint n).

(** ** The data model *)

Record Component : Type := mkComponent {
  name : string;
  path : string;
  content : string
}.

(** The vendor marker of line 39. *)
Definition node_modules : string := "node_modules".

(** A thrown exception, identified by its code or message. *)
Definition error : Type := string.

(** The resolved command-line flags ([argv as args] of yargs). *)
Module args.
Record t : Type := {
  path : option string;
  absoluteImports : bool;
  ignoreNodeModules : bool;
  force : bool;
  verbose : bool
}.
End args.

(** ** The outside world *)

(** What the program asks of its environment. *)
Inductive syscall : Type :=
| readdir
| stat
| readFile.

(** One observable action, in program order.  A filesystem call records
    the path it was made on and the exception it raised, if any. *)
Inductive event : Type :=
| Fs (call : syscall) (target : string) (failure : option error)
| Log (text : string)
| SpinnerStart (text : string)
| SpinnerStop
| Prompt (message : string) (answer : bool)
| DeleteComponent (component : Component).

(** A directory tree as the walk observes it.  An entry of a listing is
    what [statSync] and then [readdirSync] or [readFileSync] answer on it;
    each of the three calls may throw.  Trees are finite: a cycle of
    symbolic links is outside the model. *)
Inductive node : Type :=
| StatFails (e : error)
| File (read : error + string)
| Dir (d : listing)
with listing : Type :=
| ReaddirFails (e : error)
| Entries (files : list (string * node)).

(** ** Computations that log and may throw *)

Definition Run (A : Type) : Type := (list event * (error + A))%type.

Definition ret {A : Type} (a : A) : Run A := ([], inr a).

Definition throw {A : Type} (e : error) : Run A := ([], inl e).

Definition emit (ev : event) : Run unit := ([ev], inr tt).

Definition bind {A B : Type} (m : Run A) (k : A -> Run B) : Run B :=
  match m with
  | (t, inl e) => (t, inl e)
  | (t, inr a) => let (t', r) := k a in (t ++ t', r)
  end.

Notation "x <- m ;; k" := (bind m (fun x => k))
  (at level 61, m at next level, right associativity).
Notation "m ;;; k" := (bind m (fun _ => k))
  (at level 61, right associativity).

Definition trace {A : Type} (m : Run A) : list event := fst m.

Definition outcome {A : Type} (m : Run A) : error + A := snd m.

(** [array.reduce(callback, initial)] with a callback that may throw: the
    exception leaves the reduction at once. *)
Fixpoint reduce {A B : Type} (callback : B -> A -> Run B) (array : list A) (acc : B)
  : Run B :=
  match array with
  | [] => ret acc
  | x :: rest => acc' <- callback acc x ;; reduce callback rest acc'
  end.

Definition log (text : string) : Run unit := emit (Log text).

(** ** Special characters of the messages *)

Definition nl : string := String (ascii_of_nat 10) EmptyString.
Definition tab : string := String (ascii_of_nat 9) EmptyString.

(** * The usage resolver (lines 67-95) *)

Section Resolver.

(** [isImported] is imported from [./utils]; the resolver only calls
    it, so it is taken as given. *)
Variable isImported : string -> string -> bool.

(** Lines 72-80: the [for ... of] loop returns [undefined] at the first
    file that imports the name, and the component itself otherwise. *)
Fixpoint verifyImport (component : Component) (listOfComponents : list Component)
  : option Component :=
  match listOfComponents with
  | [] => Some component
  | file :: rest =>
      if isImported (name component) (content file) then None
      else verifyImport component rest
  end.

(** Lines 85-95: [components.reduce(..., [])]. *)
Definition getUnusedComponents (components : list Component) : list Component :=
  fold_left
    (fun (acc : list Component) (curr : Component) =>
       match verifyImport curr components with
       | None => acc
       | Some componentUnUsed => acc ++ [componentUnUsed]
       end)
    components [].

(** Some scanned file imports the name of [c]. *)
Definition referenced (components : list Component) (c : Component) : bool :=
  existsb (fun file => isImported (name c) (content file)) components.

(** Claim C1 as the spec words it: unused iff no OTHER component's
    content holds a matching reference. *)
Definition unused_iff_no_other_reference (components : list Component) : Prop :=
  forall c, In c components ->
    (In c (getUnusedComponents components) <->
     forall f, In f components -> f <> c -> isImported (name c) (content f) = false).

End Resolver.

(** Order-preserving sublists. *)
Inductive Sublist {A : Type} : list A -> list A -> Prop :=
| Sublist_nil : Sublist [] []
| Sublist_skip : forall x l1 l2, Sublist l1 l2 -> Sublist l1 (x :: l2)
| Sublist_keep : forall x l1 l2, Sublist l1 l2 -> Sublist (x :: l1) (x :: l2).

(** * Discovery (lines 9-65) *)

Section Discovery.

Variable argv : args.t.

(** [baseUrl] and [isAvailableFile] are imported from [./utils], and
    [parse] is react-docgen's: it throws, or returns a documentation
    object whose [displayName] may be missing. *)
Variable baseUrl : string.
Variable isAvailableFile : string -> bool.
Variable parse : string -> error + option string.

(** Lines 12-20.  [parsed.displayName || ''], and [''] again when
    react-docgen throws. *)
Definition getComponentName (fileContent : string) : string :=
  match parse fileContent with
  | inr parsed =>
      match parsed with
      | Some displayName => displayName
      | None => ""
      end
  | inl _ => ""
  end.

(** Line 28. *)
Definition useFullPath (path : string) (isSubfolder : bool) : string :=
  if negb (truthy (args.path argv)) && args.absoluteImports argv && negb isSubfolder
  then (path ++ "/" ++ baseUrl)%string
  else path.

(** Line 39: the directory is a vendor directory that the run ignores. *)
Definition skipped (fileName : string) : bool :=
  args.ignoreNodeModules argv && includes fileName node_modules.

(** Lines 44-46. *)
Definition readFileSync (filePath : string) (read : error + string) : Run string :=
  match read with
  | inl e => emit (Fs readFile filePath (Some e)) ;;; throw e
  | inr fileContent => emit (Fs readFile filePath None) ;;; ret fileContent
  end.

(** Lines 33-64, the callback of the reduction.  [getComponentsFromDir]
    stands for the recursive call of line 40; the constructor of the
    entry is what [statSync(filePath).isDirectory()] finds. *)
Definition visit (getComponentsFromDir : string -> bool -> listing -> Run (list Component))
  (useFullPath : string) (acc : list Component) (entry : string * node)
  : Run (list Component) :=
  let (fileName, n) := entry in
  let filePath := (useFullPath ++ "/" ++ fileName)%string in
  match n with
  | StatFails e => emit (Fs stat filePath (Some e)) ;;; throw e
  | Dir d =>
      emit (Fs stat filePath None) ;;;
      if skipped fileName then ret acc
      else
        found <- getComponentsFromDir filePath true d ;;
        ret (acc ++ found)
  | File read =>
      emit (Fs stat filePath None) ;;;
      if isAvailableFile fileName then
        fileContent <- readFileSync filePath read ;;
        let componentName := getComponentName fileContent in
        if negb (nonEmpty componentName) then ret acc
        else ret (acc ++ [mkComponent componentName filePath fileContent])
      else ret acc
  end.

(** Lines 27-65.  [d] is what the filesystem holds at [whereToLook]. *)
Fixpoint getComponentsFromDir (path : string) (isSubfolder : bool) (d : listing)
  {struct d} : Run (list Component) :=
  let useFullPath := useFullPath path isSubfolder in
  let whereToLook := useFullPath in
  match d with
  | ReaddirFails e => emit (Fs readdir whereToLook (Some e)) ;;; throw e
  | Entries files =>
      emit (Fs readdir whereToLook None) ;;;
      reduce (visit getComponentsFromDir useFullPath) files []
  end.

(** The reduction of lines 33-64 over [files], from the accumulator
    [acc], in the directory [useFullPath]. *)
Definition scanEntries (useFullPath : string) (files : list (string * node))
  (acc : list Component) : Run (list Component) :=
  reduce (visit getComponentsFromDir useFullPath) files acc.

End Discovery.

(** * Deletion (lines 97-117 and 141-146) and the main function *)

Section Deletion.

Variable argv : args.t.

(** The files on disk, for the delete capability. *)
Variable Disk : Type.

(** [deleteComponent] is imported from [./utils]: it removes the file of
    a component, or throws. *)
Variable deleteComponent : Component -> Disk -> error + Disk.

(** The answer the user gives to the prompt number [asked] of the run. *)
Variable confirm : nat -> bool.

(** A call of the delete capability. *)
Definition callDelete (component : Component) (disk : Disk) : Run Disk :=
  emit (DeleteComponent component) ;;;
  match deleteComponent component disk with
  | inl e => throw e
  | inr disk' => ret disk'
  end.

(** Lines 100-117.  [asked] counts the prompts already answered. *)
Fixpoint confirmDelete (components : list Component) (asked : nat) (disk : Disk)
  : Run Disk :=
  match components with
  | [] => ret disk
  | component :: rest =>
      (if args.verbose argv then log (content component) else ret tt) ;;;
      let answer := confirm asked in
      emit (Prompt ("Do you want to delete " ++ path component ++ " ?")%string answer) ;;;
      disk' <- (if answer then callDelete component disk else ret disk) ;;
      confirmDelete rest (S asked) disk'
  end.

(** Modelled from the spec: [deleteComponents] of [./utils], which is not
    among the sources.  Forced mode "deletes every unused component's file
    without confirmation", through the delete capability, and a delete
    failure is "fatal to the batch". *)
Fixpoint deleteComponents (components : list Component) (disk : Disk) : Run Disk :=
  match components with
  | [] => ret disk
  | component :: rest =>
      disk' <- callDelete component disk ;;
      deleteComponents rest disk'
  end.

(** Lines 141-146. *)
Definition deletionWorkflow (zombieComponents : list Component) (disk : Disk)
  : Run Disk :=
  if args.force argv then deleteComponents zombieComponents disk
  else
    disk' <- confirmDelete zombieComponents 0 disk ;;
    log (nl ++ "Bye bye!")%string ;;;
    ret disk'.

(** Every call of the delete capability succeeds, one file after the
    other, from [disk] on. *)
Fixpoint deletesSucceed (components : list Component) (disk : Disk) : Prop :=
  match components with
  | [] => True
  | component :: rest =>
      exists disk', deleteComponent component disk = inr disk' /\
                    deletesSucceed rest disk'
  end.

Variable baseUrl : string.
Variable isAvailableFile : string -> bool.
Variable parse : string -> error + option string.
Variable isImported : string -> string -> bool.

(** [`${args.path}`] inside a message. *)
Definition pathText : string :=
  match args.path argv with
  | Some p => p
  | None => "undefined"
  end.

(** Lines 120-126. *)
Definition advisory : Run unit :=
  if args.verbose argv && args.absoluteImports argv then
    if truthy (args.path argv) then
      log ("--absoluteImports AND --path conflict." ++ tab ++ " Will use path: '"
           ++ pathText ++ "' instead of absoluteImports")%string
    else log ("--absoluteImports. " ++ tab ++ "Will use baseUrl: '" ++ baseUrl ++ "'")%string
  else ret tt.

(** Line 132: [args.path || process.cwd()]. *)
Definition startPath (cwd : string) : string :=
  match args.path argv with
  | Some p => if nonEmpty p then p else cwd
  | None => cwd
  end.

(** The directory the top-level call lists. *)
Definition scanRoot (cwd : string) : string :=
  useFullPath argv baseUrl (startPath cwd) false.

(** Lines 119-147.  [fs] gives the tree found at a path, [cwd] is
    [process.cwd()]. *)
Definition main (cwd : string) (fs : string -> listing) (disk : Disk) : Run Disk :=
  advisory ;;;
  emit (SpinnerStart "Searching zombie components") ;;;
  let path := startPath cwd in
  components <-
    getComponentsFromDir argv baseUrl isAvailableFile parse path false
      (fs (useFullPath argv baseUrl path false)) ;;
  log (nl ++ nl ++ showNat (length components) ++ " components found! " ++ nl)%string ;;;
  let zombieComponents := getUnusedComponents isImported components in
  emit SpinnerStop ;;;
  log (showNat (length zombieComponents) ++ " unused components found! " ++ nl)%string ;;;
  deletionWorkflow zombieComponents disk.

End Deletion.

(** * Vocabulary of the statements *)

(** [root/dir1/.../dirN], built the way line 34 builds [filePath]. *)
Definition joinPath (root : string) (names : list string) : string :=
  fold_left (fun p fileName => (p ++ "/" ++ fileName)%string) names root.

(** [dirAt d dirs d']: following the directories named [dirs], in this
    order, from the listing [d] leads to the listing [d']. *)
Inductive dirAt : listing -> list string -> listing -> Prop :=
| dirAt_here : forall d, dirAt d [] d
| dirAt_below : forall files dirName sub dirs d',
    In (dirName, Dir sub) files ->
    dirAt sub dirs d' ->
    dirAt (Entries files) (dirName :: dirs) d'.

(** [entryAt d dirs fileName n]: the directory reached from [d] through
    [dirs] lists [fileName], and the filesystem holds [n] there. *)
Definition entryAt (d : listing) (dirs : list string) (fileName : string) (n : node)
  : Prop :=
  exists files, dirAt d dirs (Entries files) /\ In (fileName, n) files.

(** No directory of the chain carries the vendor marker in its name. *)
Definition noVendor (dirs : list string) : Prop :=
  Forall (fun dirName => includes dirName node_modules = false) dirs.

(** Where a filesystem call of the walk of [d], listed at [useFullPath],
    was made: on a directory of the tree, on an entry of such a
    directory, or on an eligible file of such a directory, with a path
    spelled from [useFullPath] and the names on the way; when the run
    ignores vendor directories no directory on the way is one. *)
Definition located (ignore : bool) (eligible : string -> bool) (useFullPath : string)
  (d : listing) (ev : event) : Prop :=
  match ev with
  | Fs readdir p _ =>
      exists dirs d',
        dirAt d dirs d' /\ p = joinPath useFullPath dirs /\
        (ignore = true -> noVendor dirs)
  | Fs stat p _ =>
      exists dirs fileName n,
        entryAt d dirs fileName n /\ p = joinPath useFullPath (dirs ++ [fileName]) /\
        (ignore = true -> noVendor dirs)
  | Fs readFile p _ =>
      exists dirs fileName read,
        entryAt d dirs fileName (File read) /\ eligible fileName = true /\
        p = joinPath useFullPath (dirs ++ [fileName]) /\
        (ignore = true -> noVendor dirs)
  | _ => False
  end.

(** Where a component of the result comes from: an eligible file of the
    tree that could be read, whose text is its content and whose display
    name, not empty, is its name. *)
Definition discovered (ignore : bool) (eligible : string -> bool)
  (parse : string -> error + option string) (useFullPath : string) (d : listing)
  (c : Component) : Prop :=
  exists dirs fileName,
    entryAt d dirs fileName (File (inr (content c))) /\
    eligible fileName = true /\
    path c = joinPath useFullPath (dirs ++ [fileName]) /\
    (ignore = true -> noVendor dirs) /\
    parse (content c) = inr (Some (name c)) /\
    name c <> "".

(** The tree with every directory whose name carries the vendor marker
    emptied of its own listing and given [replacement] instead. *)
Fixpoint sealVendor (replacement : listing) (d : listing) {struct d} : listing :=
  match d with
  | ReaddirFails e => ReaddirFails e
  | Entries files =>
      Entries
        (map (fun entry : string * node =>
                let (fileName, n) := entry in
                match n with
                | Dir sub =>
                    if includes fileName node_modules then (fileName, Dir replacement)
                    else (fileName, Dir (sealVendor replacement sub))
                | _ => (fileName, n)
                end) files)
  end.

(** [failure skip eligible d e]: an operation that the walk of [d] has to
    make throws [e]: listing [d] itself, the stat of one of its entries,
    the read of one of its eligible files, or any of these below a
    directory that the walk enters. *)
Inductive failure (skip eligible : string -> bool) : listing -> error -> Prop :=
| failure_readdir : forall e, failure skip eligible (ReaddirFails e) e
| failure_stat : forall files fileName e,
    In (fileName, StatFails e) files ->
    failure skip eligible (Entries files) e
| failure_read : forall files fileName e,
    In (fileName, File (inl e)) files ->
    eligible fileName = true ->
    failure skip eligible (Entries files) e
| failure_below : forall files dirName sub e,
    In (dirName, Dir sub) files ->
    skip dirName = false ->
    failure skip eligible sub e ->
    failure skip eligible (Entries files) e.

(** What one item of the interactive loop logs and asks (lines 102-111). *)
Definition itemLog (argv : args.t) (component : Component) : list event :=
  if args.verbose argv then [Log (content component)] else [].

Definition itemPrompt (component : Component) (answer : bool) : event :=
  Prompt ("Do you want to delete " ++ path component ++ " ?")%string answer.

(** The components handed to the delete capability, in call order. *)
Fixpoint deleteCalls (t : list event) : list Component :=
  match t with
  | [] => []
  | DeleteComponent c :: rest => c :: deleteCalls rest
  | _ :: rest => deleteCalls rest
  end.

(** The number of confirmation prompts issued. *)
Fixpoint promptCount (t : list event) : nat :=
  match t with
  | [] => 0
  | Prompt _ _ :: rest => S (promptCount rest)
  | _ :: rest => promptCount rest
  end.

(** * Vocabulary of the further properties *)

(** The walk enters every directory of the chain. *)
Definition entered (argv : args.t) (dirs : list string) : Prop :=
  Forall (fun dirName => skipped argv dirName = false) dirs.

(** A filesystem call that did not throw (any other event counts as
    such). *)
Definition successful (ev : event) : Prop :=
  match ev with
  | Fs _ _ (Some _) => False
  | _ => True
  end.

(** A computation stops at the first filesystem call that throws: either
    it returns and no call of its trace threw, or it throws [e] and the
    call that threw [e] is the last event, the only one that threw. *)
Definition stopsAtFirstFailure {A : Type} (m : Run A) : Prop :=
  match outcome m with
  | inr _ => Forall successful (trace m)
  | inl e =>
      exists call target before,
        trace m = before ++ [Fs call target (Some e)] /\ Forall successful before
  end.

(** The event is a filesystem call. *)
Definition isFs (ev : event) : bool :=
  match ev with
  | Fs _ _ _ => true
  | _ => false
  end.

(** The event is a prompt or a call of the delete capability. *)
Definition isPromptOrDelete (ev : event) : bool :=
  match ev with
  | Prompt _ _ => true
  | DeleteComponent _ => true
  | _ => false
  end.

(** The components whose prompt the user accepts, when the first of them
    is asked as prompt number [asked]. *)
Fixpoint accepted (confirm : nat -> bool) (components : list Component) (asked : nat)
  : list Component :=
  match components with
  | [] => []
  | component :: rest =>
      if confirm asked then component :: accepted confirm rest (S asked)
      else accepted confirm rest (S asked)
  end.

(** The delete capability applied to the components in turn, up to the
    first exception. *)
Fixpoint applyDeletes {Disk : Type} (deleteComponent : Component -> Disk -> error + Disk)
  (components : list Component) (disk : Disk) : error + Disk :=
  match components with
  | [] => inr disk
  | component :: rest =>
      match deleteComponent component disk with
      | inl e => inl e
      | inr disk' => applyDeletes deleteComponent rest disk'
      end
  end.

(** A computation that only appends what it finds to an accumulator. *)
Definition extend (acc : list Component) (m : Run (list Component))
  : Run (list Component) :=
  (trace m,
   match outcome m with
   | inl e => inl e
   | inr found => inr (acc ++ found)
   end).

(** What the interactive loop may do, in a run of trace [t]: log the
    content of a component of the list (verbose runs only), ask about
    one, delete one the user accepted. *)
Definition loopEvent (argv : args.t) (components : list Component) (t : list event)
  (ev : event) : Prop :=
  exists c,
    In c components /\
    ((ev = Log (content c) /\ args.verbose argv = true) \/
     (exists answer, ev = itemPrompt c answer) \/
     (ev = DeleteComponent c /\ In (itemPrompt c true) t)).

(** A tail is empty or starts with [/]. *)
Definition tailShaped (t : string) : Prop :=
  t = "" \/ exists rest, t = String "/" rest.

(** A name as a filesystem gives them: without [/]. *)
Definition slashFree (fileName : string) : Prop := includes fileName "/" = false.

(** What [joinPath] appends to its root. *)
Fixpoint pathTail (names : list string) : string :=
  match names with
  | [] => ""
  | fileName :: rest => ("/" ++ fileName ++ pathTail rest)%string
  end.

(** A tree as a filesystem gives them: in every directory the names are
    pairwise distinct and none contains [/]. *)
Inductive wellFormed : listing -> Prop :=
| wellFormed_fails : forall e, wellFormed (ReaddirFails e)
| wellFormed_entries : forall files,
    NoDup (map fst files) ->
    (forall fileName n, In (fileName, n) files -> slashFree fileName) ->
    (forall dirName sub, In (dirName, Dir sub) files -> wellFormed sub) ->
    wellFormed (Entries files).

(** * A sample run, for the examples *)

(** Modelled from the spec: [isImported] of [./utils], which is not among
    the sources.  The spec calls the detection "textual substring-based"
    and its scenario counts the literal substring [Foo] in a content as a
    reference to [Foo]. *)
Definition isImportedModel (componentName fileContent : string) : bool :=
  includes fileContent componentName.

(** [s.endsWith(suffix)]. *)
Definition endsWith (s suffix : string) : bool :=
  String.eqb
    (String.substring (String.length s - String.length suffix) (String.length suffix) s)
    suffix
  && Nat.leb (String.length suffix) (String.length s).

(** Modelled from the spec: [isAvailableFile] of [./utils], which is not
    among the sources.  The spec only says that the eligible extensions
    are the "source/markup file types used for components"; the examples
    take [.js], [.jsx] and [.tsx]. *)
Definition isAvailableFileModel (fileName : string) : bool :=
  endsWith fileName ".js" || endsWith fileName ".jsx" || endsWith fileName ".tsx".

(** The characters of [s] before the first space. *)
Fixpoint firstWord (s : string) : string :=
  match s with
  | EmptyString => EmptyString
  | String c rest => if Ascii.eqb c " " then EmptyString else String c (firstWord rest)
  end.

(** A stand-in for react-docgen in the examples: a text [const Name ...]
    documents the component [Name], any other text makes it throw. *)
Definition parseSample (fileContent : string) : error + option string :=
  if String.prefix "const " fileContent
  then inr (Some (firstWord (String.substring 6 (String.length fileContent - 6) fileContent)))
  else inl "No suitable component definition found.".

(** A recursive component: its file imports and renders itself. *)
Definition TreeView : Component :=
  mkComponent "TreeView" "/app/src/TreeView.tsx"
    "import TreeView from './TreeView'; export default (p) => <TreeView {...p}/>".

Definition Foo : Component :=
  mkComponent "Foo" "/app/src/Foo.tsx" "const Foo = () => <div/>".
Definition Bar : Component :=
  mkComponent "Bar" "/app/src/widgets/Bar.tsx" "const Bar = () => <Foo/>".
Definition Baz : Component :=
  mkComponent "Baz" "/app/src/widgets/Baz.jsx" "const Baz = () => <span/>".

(** The tree under [/app/src] in the examples. *)
Definition widgets : listing :=
  Entries
    [ ("Bar.tsx", File (inr "const Bar = () => <Foo/>"));
      ("broken.tsx", File (inr "export default 42"));
      ("Baz.jsx", File (inr "const Baz = () => <span/>")) ].

Definition vendor : listing :=
  Entries [ ("Lib.js", File (inr "const Lib = () => <Bar/>")) ].

Definition sampleTree : listing :=
  Entries
    [ ("Foo.tsx", File (inr "const Foo = () => <div/>"));
      ("notes.md", File (inl "EACCES"));
      ("node_modules", Dir vendor);
      ("widgets", Dir widgets) ].

(** The same tree with an unreadable component file. *)
Definition brokenTree : listing :=
  Entries
    [ ("Foo.tsx", File (inr "const Foo = () => <div/>"));
      ("widgets", Dir (Entries [ ("Bar.tsx", File (inl "EACCES")) ])) ].

Definition sampleArgs : args.t :=
  {| args.path := None;
     args.absoluteImports := true;
     args.ignoreNodeModules := true;
     args.force := false;
     args.verbose := false |}.

Definition forcedArgs : args.t :=
  {| args.path := None;
     args.absoluteImports := true;
     args.ignoreNodeModules := true;
     args.force := true;
     args.verbose := false |}.

(** A disk as the list of the paths present; deleting a missing file
    throws. *)
Definition unlinkSample (component : Component) (disk : list string)
  : error + list string :=
  if in_dec string_dec (path component) disk
  then inr (remove string_dec (path component) disk)
  else inl "ENOENT".

Definition sampleDisk : list string :=
  [ "/app/src/Foo.tsx"; "/app/src/widgets/Bar.tsx"; "/app/src/widgets/Baz.jsx" ].

(** The user accepts every prompt but the second. *)
Definition sampleAnswers (asked : nat) : bool := negb (Nat.eqb asked 1).

(** The scenario of the spec: [A.tsx] declares [Foo] and names no
    component, [B.tsx] declares [Bar] and uses [Foo]. *)
Definition scenarioA : Component :=
  mkComponent "Foo" "A.tsx" "export default () => <div/>".
Definition scenarioB : Component :=
  mkComponent "Bar" "B.tsx" "export default () => <Foo/>".

(** A second import matcher for the examples: the name used as a JSX
    tag. *)
Definition isImportedAsTag (componentName fileContent : string) : bool :=
  includes fileContent ("<" ++ componentName)%string.

(** A directory kept aside under a name that still carries the marker. *)
Definition archivedTree : listing :=
  Entries
    [ ("old_node_modules_2019", Dir vendor);
      ("Foo.tsx", File (inr "const Foo = () => <div/>")) ].

(** A disk on which [Baz.jsx] is already gone. *)
Definition staleDisk : list string :=
  [ "/app/src/Foo.tsx"; "/app/src/widgets/Bar.tsx" ].

(** The user accepts every prompt. *)
Definition yesToAll (asked : nat) : bool := true.

(** * Facts on computations *)

Lemma trace_pair {A : Type} (t : list event) (r : error + A) : trace (t, r) = t.
Proof. reflexivity. Qed.

Lemma outcome_pair {A : Type} (t : list event) (r : error + A) : outcome (t, r) = r.
Proof. reflexivity. Qed.

Lemma bind_ret_l {A B : Type} (a : A) (k : A -> Run B) : bind (ret a) k = k a.
Proof. unfold bind, ret. now destruct (k a). Qed.


Lemma bind_assoc {A B C : Type} (m : Run A) (k : A -> Run B) (h : B -> Run C) :
  bind (bind m k) h = bind m (fun a => bind (k a) h).
Proof.
  destruct m as [t [e|a]]; simpl; [reflexivity|].
  destruct (k a) as [t' [e|b]]; simpl; [reflexivity|].
  destruct (h b) as [t'' r]. now rewrite app_assoc.
Qed.

Lemma bind_throws {A B : Type} (t : list event) (e : error) (k : A -> Run B) :
  bind (t, inl e) k = (t, inl e).
Proof. reflexivity. Qed.

Lemma bind_returns {A B : Type} (t : list event) (a : A) (k : A -> Run B) :
  bind (t, inr a) k = (t ++ trace (k a), outcome (k a)).
Proof. simpl. now destruct (k a). Qed.

Lemma trace_bind_in {A B : Type} (m : Run A) (k : A -> Run B) (ev : event) :
  In ev (trace (bind m k)) ->
  In ev (trace m) \/ exists a, outcome m = inr a /\ In ev (trace (k a)).
Proof.
  unfold trace, outcome.
  destruct m as [t [e|a]]; simpl; [auto|].
  destruct (k a) as [t' r] eqn:E. simpl. intros H.
  apply in_app_or in H. destruct H as [H|H]; [auto|].
  right. exists a. rewrite E. auto.
Qed.

Lemma outcome_bind_inr {A B : Type} (m : Run A) (k : A -> Run B) (b : B) :
  outcome (bind m k) = inr b ->
  exists a, outcome m = inr a /\ outcome (k a) = inr b.
Proof.
  unfold outcome.
  destruct m as [t [e|a]]; simpl; [discriminate|].
  destruct (k a) as [t' r] eqn:E. simpl. intros ->.
  exists a. now rewrite E.
Qed.

Lemma outcome_bind_inl {A B : Type} (m : Run A) (k : A -> Run B) (e : error) :
  outcome (bind m k) = inl e ->
  outcome m = inl e \/ exists a, outcome m = inr a /\ outcome (k a) = inl e.
Proof.
  unfold outcome.
  destruct m as [t [e'|a]]; simpl.
  - intros H. injection H as ->. now left.
  - destruct (k a) as [t' r] eqn:E. simpl. intros ->.
    right. exists a. now rewrite E.
Qed.

Lemma reduce_app {A B : Type} (f : B -> A -> Run B) (l1 l2 : list A) (acc : B) :
  reduce f (l1 ++ l2) acc = bind (reduce f l1 acc) (fun acc' => reduce f l2 acc').
Proof.
  revert acc. induction l1 as [|x l1 IH]; intros acc.
  - simpl app. unfold reduce at 2. now rewrite bind_ret_l.
  - simpl. rewrite bind_assoc.
    destruct (f acc x) as [t [e|acc']]; simpl; [reflexivity|].
    now rewrite IH.
Qed.

(** Events and results of a reduction come from its steps. *)
Lemma reduce_trace_in {A B : Type} (f : B -> A -> Run B) (l : list A) (acc : B)
  (ev : event) :
  In ev (trace (reduce f l acc)) ->
  exists x acc', In x l /\ In ev (trace (f acc' x)).
Proof.
  revert acc. induction l as [|x l IH]; intros acc; simpl.
  - intros [].
  - intros H. apply trace_bind_in in H. destruct H as [H|(acc' & _ & H)].
    + exists x, acc. auto.
    + destruct (IH _ H) as (y & acc'' & Hy & Hev). exists y, acc''. auto.
Qed.

Lemma reduce_invariant {A B : Type} (P : B -> Prop) (f : B -> A -> Run B)
  (l : list A) :
  (forall acc x acc', In x l -> P acc -> outcome (f acc x) = inr acc' -> P acc') ->
  forall acc r, P acc -> outcome (reduce f l acc) = inr r -> P r.
Proof.
  induction l as [|x l IH]; intros Hstep acc r Hacc; simpl.
  - unfold outcome. simpl. intros H. now injection H as <-.
  - intros H. apply outcome_bind_inr in H. destruct H as (acc' & H1 & H2).
    apply IH with (acc := acc'); [|eapply Hstep; eauto; now left|exact H2].
    intros a y a' Hy. apply Hstep. now right.
Qed.

Lemma reduce_fails {A B : Type} (f : B -> A -> Run B) (l : list A) (acc : B)
  (e : error) :
  outcome (reduce f l acc) = inl e ->
  exists x acc', In x l /\ outcome (f acc' x) = inl e.
Proof.
  revert acc. induction l as [|x l IH]; intros acc; simpl.
  - unfold outcome. simpl. discriminate.
  - intros H. apply outcome_bind_inl in H. destruct H as [H|(acc' & _ & H)].
    + exists x, acc. auto.
    + destruct (IH _ H) as (y & acc'' & Hy & He). exists y, acc''. auto.
Qed.


Lemma reduce_map_ext {A B : Type} (f : B -> A -> Run B) (g : A -> A) (l : list A) :
  (forall x acc, In x l -> f acc (g x) = f acc x) ->
  forall acc, reduce f (map g l) acc = reduce f l acc.
Proof.
  induction l as [|x l IH]; intros H acc; simpl; [reflexivity|].
  rewrite H by now left.
  destruct (f acc x) as [t [e|acc']]; simpl; [reflexivity|].
  rewrite IH; [reflexivity|]. intros y a Hy. apply H. now right.
Qed.

(** A step that throws whatever the accumulator makes the reduction throw. *)
Lemma reduce_step_throws {A B : Type} (f : B -> A -> Run B) (l : list A) (x : A) :
  In x l ->
  (forall acc, exists e, outcome (f acc x) = inl e) ->
  forall acc, exists e, outcome (reduce f l acc) = inl e.
Proof.
  intros Hin Hx. induction l as [|y l IH]; intros acc; [destruct Hin|].
  simpl. destruct (f acc y) as [t [e|acc']] eqn:E.
  - exists e. reflexivity.
  - destruct Hin as [->|Hin].
    + destruct (Hx acc) as [e He]. rewrite E in He. discriminate.
    + destruct (IH Hin acc') as [e He]. exists e.
      rewrite bind_returns, outcome_pair. exact He.
Qed.

(** * Induction on directory trees *)

Section ListingInduction.

Variable P : listing -> Prop.
Hypothesis P_fails : forall e, P (ReaddirFails e).
Hypothesis P_entries :
  forall files,
    (forall dirName sub, In (dirName, Dir sub) files -> P sub) ->
    P (Entries files).

Lemma listing_induction : forall d, P d.
Proof.
  fix IH 1. intros [e|files].
  - apply P_fails.
  - apply P_entries.
    induction files as [|[fileName n] rest IHrest]; intros dirName sub Hin.
    + destruct Hin.
    + destruct Hin as [E|Hin].
      * destruct n as [e|r|d]; try discriminate E.
        injection E as _ <-. apply IH.
      * exact (IHrest dirName sub Hin).
Qed.

End ListingInduction.

(** * Facts on the walk *)

Section DiscoveryFacts.

Variable argv : args.t.
Variable baseUrl : string.
Variable isAvailableFile : string -> bool.
Variable parse : string -> error + option string.

Local Abbreviation walk := (getComponentsFromDir argv baseUrl isAvailableFile parse).
Local Abbreviation scan := (scanEntries argv baseUrl isAvailableFile parse).
Local Abbreviation step := (visit argv isAvailableFile parse walk).
Local Abbreviation full := (useFullPath argv baseUrl).

Lemma useFullPath_subfolder (path : string) : full path true = path.
Proof.
  unfold useFullPath. now rewrite andb_false_r.
Qed.

Lemma walk_fails (path : string) (isSubfolder : bool) (e : error) :
  walk path isSubfolder (ReaddirFails e) =
  ([Fs readdir (full path isSubfolder) (Some e)], inl e).
Proof. reflexivity. Qed.

Lemma walk_entries (path : string) (isSubfolder : bool) (files : list (string * node)) :
  walk path isSubfolder (Entries files) =
  (Fs readdir (full path isSubfolder) None :: trace (scan (full path isSubfolder) files []),
   outcome (scan (full path isSubfolder) files [])).
Proof.
  simpl. unfold scanEntries.
  now destruct (reduce _ files []).
Qed.

Lemma step_stat_fails (U fileName : string) (acc : list Component) (e : error) :
  step U acc (fileName, StatFails e) =
  ([Fs stat (U ++ "/" ++ fileName)%string (Some e)], inl e).
Proof. reflexivity. Qed.

Lemma step_dir_skipped (U fileName : string) (acc : list Component) (sub : listing) :
  skipped argv fileName = true ->
  step U acc (fileName, Dir sub) = ([Fs stat (U ++ "/" ++ fileName)%string None], inr acc).
Proof. intros H. unfold visit. cbv beta iota zeta. now rewrite H. Qed.

Lemma step_dir_entered (U fileName : string) (acc : list Component) (sub : listing) :
  skipped argv fileName = false ->
  step U acc (fileName, Dir sub) =
  (Fs stat (U ++ "/" ++ fileName)%string None
     :: trace (walk (U ++ "/" ++ fileName)%string true sub),
   match outcome (walk (U ++ "/" ++ fileName)%string true sub) with
   | inl e => inl e
   | inr found => inr (acc ++ found)
   end).
Proof.
  intros H. unfold visit. cbv beta iota zeta. rewrite H.
  destruct (walk (U ++ "/" ++ fileName)%string true sub) as [t [e|found]];
    [reflexivity|].
  unfold trace, outcome. simpl. now rewrite app_nil_r.
Qed.

Lemma step_file_ineligible (U fileName : string) (acc : list Component)
  (read : error + string) :
  isAvailableFile fileName = false ->
  step U acc (fileName, File read) = ([Fs stat (U ++ "/" ++ fileName)%string None], inr acc).
Proof. intros H. unfold visit. cbv beta iota zeta. now rewrite H. Qed.

Lemma step_file_unreadable (U fileName : string) (acc : list Component) (e : error) :
  isAvailableFile fileName = true ->
  step U acc (fileName, File (inl e)) =
  ([Fs stat (U ++ "/" ++ fileName)%string None;
    Fs readFile (U ++ "/" ++ fileName)%string (Some e)], inl e).
Proof. intros H. unfold visit. cbv beta iota zeta. now rewrite H. Qed.

Lemma readFileSync_returns (filePath text : string) :
  readFileSync filePath (inr text) = ([Fs readFile filePath None], inr text).
Proof. reflexivity. Qed.

(** What a readable eligible file adds to the accumulator. *)
Lemma step_file_read (U fileName : string) (acc : list Component) (text : string) :
  isAvailableFile fileName = true ->
  step U acc (fileName, File (inr text)) =
  ([Fs stat (U ++ "/" ++ fileName)%string None;
    Fs readFile (U ++ "/" ++ fileName)%string None],
   inr (acc ++
        if nonEmpty (getComponentName parse text)
        then [mkComponent (getComponentName parse text)
                          (U ++ "/" ++ fileName)%string text]
        else [])).
Proof.
  intros H. unfold visit. cbv beta iota zeta. rewrite H.
  rewrite readFileSync_returns. unfold emit. rewrite !bind_returns. cbv beta.
  destruct (nonEmpty (getComponentName parse text)); simpl; [reflexivity|].
  now rewrite app_nil_r.
Qed.

Lemma entryAt_below (files : list (string * node)) (dirName : string) (sub : listing)
  (dirs : list string) (fileName : string) (n : node) :
  In (dirName, Dir sub) files ->
  entryAt sub dirs fileName n ->
  entryAt (Entries files) (dirName :: dirs) fileName n.
Proof.
  intros Hin (files' & Hd & Hf). exists files'. split; [|exact Hf].
  now apply dirAt_below with (sub := sub).
Qed.

Lemma skipped_false_noVendor (dirName : string) :
  skipped argv dirName = false ->
  args.ignoreNodeModules argv = true ->
  includes dirName node_modules = false.
Proof. unfold skipped. intros H Hi. now rewrite Hi in H. Qed.

Lemma located_below (U : string) (files : list (string * node)) (dirName : string)
  (sub : listing) (ev : event) :
  In (dirName, Dir sub) files ->
  skipped argv dirName = false ->
  located (args.ignoreNodeModules argv) isAvailableFile
          (U ++ "/" ++ dirName)%string sub ev ->
  located (args.ignoreNodeModules argv) isAvailableFile U (Entries files) ev.
Proof.
  intros Hin Hskip.
  assert (Hv : forall dirs, (args.ignoreNodeModules argv = true -> noVendor dirs) ->
                            args.ignoreNodeModules argv = true -> noVendor (dirName :: dirs)).
  { intros dirs H Hi. apply Forall_cons; [now apply skipped_false_noVendor|exact (H Hi)]. }
  destruct ev as [[| |] p r| | | | |]; simpl; try tauto.
  - intros (dirs & d' & Hd & -> & Hn). exists (dirName :: dirs), d'.
    split; [now apply dirAt_below with (sub := sub)|]. split; [reflexivity|auto].
  - intros (dirs & f & n & Hd & -> & Hn). exists (dirName :: dirs), f, n.
    split; [now apply entryAt_below with (sub := sub)|]. split; [reflexivity|auto].
  - intros (dirs & f & read & Hd & He & -> & Hn). exists (dirName :: dirs), f, read.
    split; [now apply entryAt_below with (sub := sub)|].
    split; [exact He|]. split; [reflexivity|auto].
Qed.

Lemma entryAt_here (files : list (string * node)) (fileName : string) (n : node) :
  In (fileName, n) files -> entryAt (Entries files) [] fileName n.
Proof. intros H. exists files. split; [constructor|exact H]. Qed.

Lemma noVendor_nil (b : bool) : b = true -> noVendor [].
Proof. intros _. constructor. Qed.

(** Every filesystem call of the walk is made on the tree, at the path
    spelled from the directory listed first. *)
Lemma walk_located (d : listing) :
  forall (path : string) (isSubfolder : bool) (ev : event),
    In ev (trace (walk path isSubfolder d)) ->
    located (args.ignoreNodeModules argv) isAvailableFile (full path isSubfolder) d ev.
Proof.
  induction d as [e|files IH] using listing_induction; intros path isSubfolder ev.
  - rewrite walk_fails. intros [<-|[]]. simpl.
    exists [], (ReaddirFails e). split; [constructor|]. split; [reflexivity|].
    apply noVendor_nil.
  - rewrite walk_entries. set (U := full path isSubfolder).
    rewrite trace_pair. intros [<-|Hev].
    + simpl. exists [], (Entries files). split; [constructor|]. split; [reflexivity|].
      apply noVendor_nil.
    + apply reduce_trace_in in Hev. destruct Hev as ([fileName n] & acc & Hin & Hev).
      destruct n as [e|read|sub].
      * rewrite step_stat_fails in Hev. destruct Hev as [<-|[]]. simpl.
        exists [], fileName, (StatFails e).
        split; [now apply entryAt_here|]. split; [reflexivity|apply noVendor_nil].
      * destruct (isAvailableFile fileName) eqn:Hel.
        -- assert (Hev' : ev = Fs stat (U ++ "/" ++ fileName)%string None \/
                          exists r, ev = Fs readFile (U ++ "/" ++ fileName)%string r).
           { destruct read as [e|text].
             - rewrite step_file_unreadable in Hev by exact Hel.
               destruct Hev as [<-|[<-|[]]]; eauto.
             - rewrite step_file_read in Hev by exact Hel.
               destruct Hev as [<-|[<-|[]]]; eauto. }
           destruct Hev' as [->|[r ->]]; simpl.
           ++ exists [], fileName, (File read).
              split; [now apply entryAt_here|]. split; [reflexivity|apply noVendor_nil].
           ++ exists [], fileName, read.
              split; [now apply entryAt_here|]. split; [exact Hel|].
              split; [reflexivity|apply noVendor_nil].
        -- rewrite step_file_ineligible in Hev by exact Hel.
           destruct Hev as [<-|[]]. simpl. exists [], fileName, (File read).
           split; [now apply entryAt_here|]. split; [reflexivity|apply noVendor_nil].
      * destruct (skipped argv fileName) eqn:Hskip.
        -- rewrite step_dir_skipped in Hev by exact Hskip.
           destruct Hev as [<-|[]]. simpl. exists [], fileName, (Dir sub).
           split; [now apply entryAt_here|]. split; [reflexivity|apply noVendor_nil].
        -- rewrite step_dir_entered in Hev by exact Hskip.
           destruct Hev as [<-|Hev].
           ++ simpl. exists [], fileName, (Dir sub).
              split; [now apply entryAt_here|]. split; [reflexivity|apply noVendor_nil].
           ++ apply (IH fileName sub Hin) in Hev.
              rewrite useFullPath_subfolder in Hev.
              now apply located_below with (dirName := fileName) (sub := sub).
Qed.

Lemma getComponentName_nonEmpty (text : string) :
  nonEmpty (getComponentName parse text) = true ->
  parse text = inr (Some (getComponentName parse text)) /\
  getComponentName parse text <> "".
Proof.
  unfold getComponentName.
  destruct (parse text) as [e|[displayName|]]; simpl; try discriminate.
  intros H. split; [reflexivity|]. intros ->. discriminate.
Qed.

Lemma discovered_below (U : string) (files : list (string * node)) (dirName : string)
  (sub : listing) (c : Component) :
  In (dirName, Dir sub) files ->
  skipped argv dirName = false ->
  discovered (args.ignoreNodeModules argv) isAvailableFile parse
             (U ++ "/" ++ dirName)%string sub c ->
  discovered (args.ignoreNodeModules argv) isAvailableFile parse U (Entries files) c.
Proof.
  intros Hin Hskip (dirs & f & Hat & Hel & Hp & Hn & Hparse & Hname).
  exists (dirName :: dirs), f.
  split; [now apply entryAt_below with (sub := sub)|].
  split; [exact Hel|]. split; [exact Hp|]. split; [|now split].
  intros Hi. apply Forall_cons; [now apply skipped_false_noVendor|exact (Hn Hi)].
Qed.

(** Every component of the result comes from a file of the tree. *)
Lemma walk_discovered (d : listing) :
  forall (path : string) (isSubfolder : bool) (components : list Component),
    outcome (walk path isSubfolder d) = inr components ->
    forall c, In c components ->
      discovered (args.ignoreNodeModules argv) isAvailableFile parse
                 (full path isSubfolder) d c.
Proof.
  induction d as [e|files IH] using listing_induction;
    intros path isSubfolder components.
  - rewrite walk_fails. discriminate.
  - rewrite walk_entries. set (U := full path isSubfolder).
    rewrite outcome_pair. unfold scanEntries. intros Hout.
    apply (@reduce_invariant _ _
             (fun acc => forall c, In c acc ->
                discovered (args.ignoreNodeModules argv) isAvailableFile parse
                           U (Entries files) c)
             (step U) files) with (acc := []) (r := components);
      [|intros c []|exact Hout].
    intros acc [fileName n] acc' Hin Hacc Hstep c Hc.
    destruct n as [e|read|sub].
    + rewrite step_stat_fails in Hstep. discriminate.
    + destruct (isAvailableFile fileName) eqn:Hel.
      * destruct read as [e|text].
        -- rewrite step_file_unreadable in Hstep by exact Hel. discriminate.
        -- rewrite step_file_read in Hstep by exact Hel.
           rewrite outcome_pair in Hstep; injection Hstep as <-. apply in_app_or in Hc. destruct Hc as [Hc|Hc]; [auto|].
           destruct (nonEmpty (getComponentName parse text)) eqn:Hne; [|destruct Hc].
           destruct Hc as [<-|[]].
           apply getComponentName_nonEmpty in Hne. destruct Hne as [Hparse Hname].
           exists [], fileName. simpl.
           split; [now apply entryAt_here|]. split; [exact Hel|].
           split; [reflexivity|]. split; [apply noVendor_nil|]. now split.
      * rewrite step_file_ineligible in Hstep by exact Hel.
        rewrite outcome_pair in Hstep; injection Hstep as <-. auto.
    + destruct (skipped argv fileName) eqn:Hskip.
      * rewrite step_dir_skipped in Hstep by exact Hskip. rewrite outcome_pair in Hstep; injection Hstep as <-. auto.
      * rewrite step_dir_entered in Hstep by exact Hskip.
        rewrite outcome_pair in Hstep.
        destruct (outcome (walk (U ++ "/" ++ fileName)%string true sub))
          as [e|found] eqn:Hsub; [discriminate|].
        injection Hstep as <-. apply in_app_or in Hc. destruct Hc as [Hc|Hc]; [auto|].
        apply (IH fileName sub Hin _ _ _ Hsub) in Hc.
        rewrite useFullPath_subfolder in Hc.
        now apply discovered_below with (dirName := fileName) (sub := sub).
Qed.

(** The walk does not look inside a vendor directory that it ignores. *)
Lemma walk_sealVendor (replacement : listing) (d : listing) :
  args.ignoreNodeModules argv = true ->
  forall (path : string) (isSubfolder : bool),
    walk path isSubfolder (sealVendor replacement d) = walk path isSubfolder d.
Proof.
  intros Hignore.
  induction d as [e|files IH] using listing_induction; intros path isSubfolder;
    [reflexivity|].
  change (sealVendor replacement (Entries files))
    with (Entries
            (map (fun entry : string * node =>
                    let (fileName, n) := entry in
                    match n with
                    | Dir sub =>
                        if includes fileName node_modules
                        then (fileName, Dir replacement)
                        else (fileName, Dir (sealVendor replacement sub))
                    | _ => (fileName, n)
                    end) files)).
  rewrite !walk_entries. unfold scanEntries.
  rewrite reduce_map_ext; [reflexivity|].
  intros [fileName n] acc Hin.
  destruct n as [e|read|sub]; try reflexivity.
  destruct (includes fileName node_modules) eqn:Hv.
  - assert (Hskip : skipped argv fileName = true)
      by (unfold skipped; now rewrite Hignore, Hv).
    now rewrite !step_dir_skipped.
  - assert (Hskip : skipped argv fileName = false)
      by (unfold skipped; now rewrite Hignore, Hv).
    rewrite !step_dir_entered by exact Hskip.
    now rewrite (IH fileName sub Hin).
Qed.

(** A failure on the way of the walk makes it throw. *)
Lemma failure_throws (d : listing) (e : error) :
  failure (skipped argv) isAvailableFile d e ->
  forall (path : string) (isSubfolder : bool),
    exists e', outcome (walk path isSubfolder d) = inl e'.
Proof.
  induction 1 as [e|files fileName e Hin|files fileName e Hin Hel
                  |files dirName sub e Hin Hskip Hsub IH];
    intros path isSubfolder.
  - exists e. reflexivity.
  - rewrite walk_entries, outcome_pair. unfold scanEntries.
    apply reduce_step_throws with (x := (fileName, StatFails e)); [exact Hin|].
    intros acc. exists e. now rewrite step_stat_fails.
  - rewrite walk_entries, outcome_pair. unfold scanEntries.
    apply reduce_step_throws with (x := (fileName, File (inl e))); [exact Hin|].
    intros acc. exists e. now rewrite step_file_unreadable.
  - rewrite walk_entries, outcome_pair. unfold scanEntries.
    apply reduce_step_throws with (x := (dirName, Dir sub)); [exact Hin|].
    intros acc. rewrite step_dir_entered by exact Hskip. rewrite outcome_pair.
    destruct (IH (full path isSubfolder ++ "/" ++ dirName)%string true) as [e' He'].
    exists e'. now rewrite He'.
Qed.

(** The exception of a walk is a failure of the tree. *)
Lemma throws_failure (d : listing) :
  forall (path : string) (isSubfolder : bool) (e : error),
    outcome (walk path isSubfolder d) = inl e ->
    failure (skipped argv) isAvailableFile d e.
Proof.
  induction d as [e0|files IH] using listing_induction; intros path isSubfolder e.
  - rewrite walk_fails, outcome_pair. intros H. injection H as <-. constructor.
  - rewrite walk_entries, outcome_pair. unfold scanEntries. intros H.
    apply reduce_fails in H. destruct H as ([fileName n] & acc & Hin & H).
    destruct n as [e0|read|sub].
    + rewrite step_stat_fails, outcome_pair in H. injection H as <-.
      now apply failure_stat with (fileName := fileName).
    + destruct (isAvailableFile fileName) eqn:Hel.
      * destruct read as [e0|text].
        -- rewrite step_file_unreadable, outcome_pair in H by exact Hel.
           injection H as <-. now apply failure_read with (fileName := fileName).
        -- rewrite step_file_read, outcome_pair in H by exact Hel. discriminate.
      * rewrite step_file_ineligible, outcome_pair in H by exact Hel. discriminate.
    + destruct (skipped argv fileName) eqn:Hskip.
      * rewrite step_dir_skipped, outcome_pair in H by exact Hskip. discriminate.
      * rewrite step_dir_entered, outcome_pair in H by exact Hskip.
        destruct (outcome (walk (full path isSubfolder ++ "/" ++ fileName)%string true sub))
          as [e0|found] eqn:Hsub; [|discriminate].
        injection H as <-.
        apply failure_below with (dirName := fileName) (sub := sub); [exact Hin|exact Hskip|].
        exact (IH fileName sub Hin _ _ _ Hsub).
Qed.

End DiscoveryFacts.

(** * Theorems on discovery *)

(** C3: the directory listed by the top-level call is the explicit path
    verbatim when one is configured, else the working directory followed
    by [/] and the baseUrl when absolute imports are on, else the working
    directory.  A nested call lists the path it is given: the walk starts
    by listing that root, and every directory it lists afterwards is the
    root followed by the names of the directories on the way, the baseUrl
    never coming back. *)
Theorem C3_scan_root_resolved_at_top_level_only :
  forall (argv : args.t) (baseUrl : string) (isAvailableFile : string -> bool)
         (parse : string -> error + option string) (cwd : string) (d : listing),
    let root := scanRoot argv baseUrl cwd in
    let run :=
      getComponentsFromDir argv baseUrl isAvailableFile parse (startPath argv cwd) false d in
    (forall p, args.path argv = Some p -> p <> "" -> root = p) /\
    (truthy (args.path argv) = false -> args.absoluteImports argv = true ->
     root = (cwd ++ "/" ++ baseUrl)%string) /\
    (truthy (args.path argv) = false -> args.absoluteImports argv = false ->
     root = cwd) /\
    (forall path, useFullPath argv baseUrl path true = path) /\
    (exists r rest, trace run = Fs readdir root r :: rest) /\
    (forall p r, In (Fs readdir p r) (trace run) ->
       exists dirs d', dirAt d dirs d' /\ p = joinPath root dirs).
Proof.
  intros argv baseUrl isAvailableFile parse cwd d root run.
  unfold root, scanRoot, startPath, useFullPath.
  split; [|split; [|split; [|split; [|split]]]].
  - intros p Hp Hne. rewrite Hp. simpl.
    destruct p as [|a p]; [now elim Hne|]. reflexivity.
  - intros Hpath Habs. rewrite Hpath, Habs. simpl.
    destruct (args.path argv) as [p|]; [|reflexivity].
    simpl in Hpath. now rewrite Hpath.
  - intros Hpath Habs. rewrite Hpath, Habs. simpl.
    destruct (args.path argv) as [p|]; [|reflexivity].
    simpl in Hpath. now rewrite Hpath.
  - intros path. now rewrite andb_false_r.
  - unfold run. destruct d as [e|files].
    + do 2 eexists. reflexivity.
    + do 2 eexists. rewrite walk_entries. reflexivity.
  - intros p r Hin. apply walk_located in Hin. simpl in Hin.
    destruct Hin as (dirs & d' & Hd & Hp & _). exists dirs, d'. split; [exact Hd|exact Hp].
Qed.

(** C4: when the run ignores vendor directories, the walk never looks
    below a directory whose name contains [node_modules], at any depth.
    Its trace and its result are the same whatever such directories hold
    (even a listing that throws); every file it reads, every directory it
    lists and every component it yields sits in the tree below
    directories none of which carries the marker in its name. *)
Theorem C4_vendor_directories_are_never_entered :
  forall (argv : args.t) (baseUrl : string) (isAvailableFile : string -> bool)
         (parse : string -> error + option string)
         (start : string) (isSubfolder : bool) (d : listing),
    args.ignoreNodeModules argv = true ->
    let run := getComponentsFromDir argv baseUrl isAvailableFile parse start isSubfolder d in
    let root := useFullPath argv baseUrl start isSubfolder in
    (forall replacement,
       getComponentsFromDir argv baseUrl isAvailableFile parse start isSubfolder
         (sealVendor replacement d) = run) /\
    (forall p r, In (Fs readFile p r) (trace run) ->
       exists dirs fileName read,
         entryAt d dirs fileName (File read) /\
         p = joinPath root (dirs ++ [fileName]) /\ noVendor dirs) /\
    (forall p r, In (Fs readdir p r) (trace run) ->
       exists dirs d', dirAt d dirs d' /\ p = joinPath root dirs /\ noVendor dirs) /\
    (forall components c, outcome run = inr components -> In c components ->
       exists dirs fileName,
         entryAt d dirs fileName (File (inr (content c))) /\
         path c = joinPath root (dirs ++ [fileName]) /\ noVendor dirs).
Proof.
  intros argv baseUrl isAvailableFile parse start isSubfolder d Hignore run root.
  split; [|split; [|split]].
  - intros replacement. now apply walk_sealVendor.
  - intros p r Hin. apply walk_located in Hin. simpl in Hin.
    destruct Hin as (dirs & f & read & Hat & _ & Hp & Hn).
    exists dirs, f, read. auto.
  - intros p r Hin. apply walk_located in Hin. simpl in Hin.
    destruct Hin as (dirs & d' & Hd & Hp & Hn). exists dirs, d'. auto.
  - intros components c Hrun Hc.
    destruct (walk_discovered _ _ _ _ _ _ _ Hrun c Hc)
      as (dirs & f & Hat & _ & Hp & Hn & _).
    exists dirs, f. auto.
Qed.

Lemma C4_vendor_directories_are_never_entered_witness :
  args.ignoreNodeModules sampleArgs = true /\
  getComponentsFromDir sampleArgs "src" isAvailableFileModel parseSample "/app" false
    (sealVendor (ReaddirFails "EIO") sampleTree) =
  getComponentsFromDir sampleArgs "src" isAvailableFileModel parseSample "/app" false
    sampleTree.
Proof.
  split; [reflexivity|].
  exact (proj1 (@C4_vendor_directories_are_never_entered sampleArgs "src"
                  isAvailableFileModel parseSample "/app" false sampleTree eq_refl)
               (ReaddirFails "EIO")).
Defined.

(** * Facts on the usage resolver *)

Section ResolverFacts.

Variable isImported : string -> string -> bool.

Lemma verifyImport_referenced (c : Component) (l : list Component) :
  verifyImport isImported c l =
  if referenced isImported l c then None else Some c.
Proof.
  unfold referenced.
  induction l as [|file rest IH]; simpl; [reflexivity|].
  destruct (isImported (name c) (content file)); simpl; [reflexivity|exact IH].
Qed.

(** The reducer of [getUnusedComponents], run over any suffix of the
    array with any accumulator. *)
Lemma reduce_unused (components l acc : list Component) :
  fold_left
    (fun (acc : list Component) (curr : Component) =>
       match verifyImport isImported curr components with
       | None => acc
       | Some componentUnUsed => acc ++ [componentUnUsed]
       end) l acc =
  acc ++ filter (fun c => negb (referenced isImported components c)) l.
Proof.
  revert acc.
  induction l as [|curr rest IH]; intros acc; simpl.
  - now rewrite app_nil_r.
  - rewrite IH, verifyImport_referenced.
    destruct (referenced isImported components curr); simpl; [reflexivity|].
    now rewrite <- app_assoc.
Qed.

Lemma getUnusedComponents_filter (components : list Component) :
  getUnusedComponents isImported components =
  filter (fun c => negb (referenced isImported components c)) components.
Proof. unfold getUnusedComponents. now rewrite reduce_unused. Qed.

Lemma referenced_false (components : list Component) (c : Component) :
  referenced isImported components c = false <->
  forall f, In f components -> isImported (name c) (content f) = false.
Proof.
  unfold referenced. split.
  - intros H f Hf.
    destruct (isImported (name c) (content f)) eqn:E; [|reflexivity].
    assert (existsb (fun file => isImported (name c) (content file)) components = true)
      by (apply existsb_exists; exists f; auto).
    congruence.
  - intros H.
    destruct (existsb (fun file => isImported (name c) (content file)) components) eqn:E;
      [|reflexivity].
    apply existsb_exists in E. destruct E as (f & Hf & Ef).
    rewrite (H f Hf) in Ef. discriminate.
Qed.

End ResolverFacts.

Lemma filter_Sublist {A : Type} (p : A -> bool) (l : list A) :
  Sublist (filter p l) l.
Proof.
  induction l as [|x l IH]; simpl.
  - constructor.
  - destruct (p x); now constructor.
Qed.

(** ** Theorems on the usage resolver *)

(** C1 (as stated) fails: [TreeView] is the only component, so no OTHER
    component refers to it, yet its own content imports and renders it
    and the resolver leaves it out of the unused list. *)
Lemma C1_self_reference_counterexample :
  ~ unused_iff_no_other_reference isImportedModel [TreeView].
Proof.
  intros H.
  destruct (H TreeView (or_introl eq_refl)) as [_ Hback].
  assert (Hin : In TreeView (getUnusedComponents isImportedModel [TreeView])).
  { apply Hback. intros f [<-|[]] Hne. now elim Hne. }
  vm_compute in Hin. exact Hin.
Qed.

(** C1 (amended): a component of the list is classified unused iff no
    component of the list, itself included, has a content in which the
    import matcher finds its name. *)
Theorem C1_unused_iff_no_reference_in_any_content :
  forall (isImported : string -> string -> bool) (components : list Component)
         (c : Component),
    In c (getUnusedComponents isImported components) <->
    In c components /\
    forall f, In f components -> isImported (name c) (content f) = false.
Proof.
  intros isImported components c.
  rewrite getUnusedComponents_filter, filter_In, negb_true_iff, referenced_false.
  reflexivity.
Qed.

(** C2: a component of the discovered set whose own content the import
    matcher accepts for its own name is classified used: [verifyImport]
    returns nothing for it and it is absent from the unused list. *)
Theorem C2_self_reference_is_used :
  forall (isImported : string -> string -> bool) (components : list Component)
         (c : Component),
    In c components ->
    isImported (name c) (content c) = true ->
    verifyImport isImported c components = None /\
    ~ In c (getUnusedComponents isImported components).
Proof.
  intros isImported components c Hin Hself.
  assert (Href : referenced isImported components c = true).
  { unfold referenced. apply existsb_exists. exists c. auto. }
  split.
  - now rewrite verifyImport_referenced, Href.
  - rewrite getUnusedComponents_filter, filter_In, Href. intros [_ H]. discriminate.
Qed.

Lemma C2_self_reference_is_used_witness :
  In TreeView [Foo; TreeView; Baz] /\
  isImportedModel (name TreeView) (content TreeView) = true /\
  verifyImport isImportedModel TreeView [Foo; TreeView; Baz] = None /\
  ~ In TreeView (getUnusedComponents isImportedModel [Foo; TreeView; Baz]).
Proof.
  split; [simpl; auto|]. split; [reflexivity|].
  apply (@C2_self_reference_is_used isImportedModel [Foo; TreeView; Baz] TreeView);
    [simpl; auto|reflexivity].
Defined.

(** C6: the resolver is a function of the component list alone.  Its
    result is the input list filtered, in input order, by "no content of
    the list refers to the name"; the components left out are exactly the
    referenced ones; and two runs whose import matcher answers alike on
    the names and contents of the list return the same list. *)
Theorem C6_resolver_deterministic_in_input_order :
  forall (isImported : string -> string -> bool) (components : list Component),
    getUnusedComponents isImported components =
      filter (fun c => negb (referenced isImported components c)) components /\
    (forall c, In c components ->
       In c (getUnusedComponents isImported components) \/
       referenced isImported components c = true) /\
    (forall isImported' : string -> string -> bool,
       (forall c f, In c components -> In f components ->
          isImported' (name c) (content f) = isImported (name c) (content f)) ->
       getUnusedComponents isImported' components =
       getUnusedComponents isImported components).
Proof.
  intros isImported components. split; [apply getUnusedComponents_filter|]. split.
  - intros c Hc. rewrite getUnusedComponents_filter, filter_In.
    destruct (referenced isImported components c); auto.
  - intros isImported' Hagree.
    rewrite !getUnusedComponents_filter.
    apply filter_ext_in. intros c Hc. f_equal.
    unfold referenced.
    apply eq_true_iff_eq. rewrite !existsb_exists.
    split; intros (f & Hf & E); exists f; (split; [exact Hf|]).
    + now rewrite <- Hagree.
    + now rewrite Hagree.
Qed.

(** C10: [verifyImport] returns nothing or the very component it was
    given, and the unused list is an order-preserving sublist of the
    input list. *)
Theorem C10_unused_is_sublist_of_input :
  forall (isImported : string -> string -> bool),
    (forall (c : Component) (l : list Component),
       verifyImport isImported c l = None \/ verifyImport isImported c l = Some c) /\
    (forall components : list Component,
       Sublist (getUnusedComponents isImported components) components).
Proof.
  intros isImported. split.
  - intros c l. rewrite verifyImport_referenced.
    destruct (referenced isImported l c); auto.
  - intros components. rewrite getUnusedComponents_filter. apply filter_Sublist.
Qed.


(** * Theorems on extraction and on failures *)

(** C5: an eligible file that can be read, met by the walk after the
    entries before it went through, adds to the result exactly one
    component, carrying the text of the file verbatim, when react-docgen
    returns a display name that is not empty; it adds nothing when
    react-docgen throws or returns no name or an empty one; in both cases
    nothing is thrown and the walk goes on with the entries that follow. *)
Theorem C5_extraction_per_eligible_file :
  forall (argv : args.t) (baseUrl : string) (isAvailableFile : string -> bool)
         (parse : string -> error + option string)
         (start : string) (isSubfolder : bool)
         (before after : list (string * node)) (fileName text : string)
         (t1 : list event) (acc1 : list Component),
    let root := useFullPath argv baseUrl start isSubfolder in
    let filePath := (root ++ "/" ++ fileName)%string in
    isAvailableFile fileName = true ->
    scanEntries argv baseUrl isAvailableFile parse root before [] = (t1, inr acc1) ->
    exists produced : list Component,
      getComponentsFromDir argv baseUrl isAvailableFile parse start isSubfolder
        (Entries (before ++ (fileName, File (inr text)) :: after)) =
      (Fs readdir root None :: t1
         ++ [Fs stat filePath None; Fs readFile filePath None]
         ++ trace (scanEntries argv baseUrl isAvailableFile parse root after
                     (acc1 ++ produced)),
       outcome (scanEntries argv baseUrl isAvailableFile parse root after
                  (acc1 ++ produced))) /\
      (forall displayName,
         parse text = inr (Some displayName) -> displayName <> "" ->
         produced = [mkComponent displayName filePath text]) /\
      ((exists e, parse text = inl e) \/ parse text = inr None \/
       parse text = inr (Some "") ->
       produced = []).
Proof.
  intros argv baseUrl isAvailableFile parse start isSubfolder before after
         fileName text t1 acc1 root filePath Hel Hbefore.
  exists (if nonEmpty (getComponentName parse text)
          then [mkComponent (getComponentName parse text) filePath text]
          else []).
  split; [|split].
  - rewrite walk_entries. fold root. unfold scanEntries in *.
    rewrite reduce_app, Hbefore, bind_returns.
    change (reduce ?f (?x :: ?l) ?a) with (bind (f a x) (fun a' => reduce f l a')).
    rewrite step_file_read by exact Hel. fold filePath.
    rewrite bind_returns, trace_pair, outcome_pair. reflexivity.
  - intros displayName Hparse Hne. unfold getComponentName. rewrite Hparse.
    destruct displayName; [now elim Hne|reflexivity].
  - unfold getComponentName. intros [[e ->]|[->| ->]]; reflexivity.
Qed.

Lemma C5_extraction_per_eligible_file_witness :
  exists produced : list Component,
    getComponentsFromDir sampleArgs "src" isAvailableFileModel parseSample
      "/app/src/widgets" true
      (Entries ([("Bar.tsx", File (inr "const Bar = () => <Foo/>"))]
                ++ ("broken.tsx", File (inr "export default 42"))
                :: [("Baz.jsx", File (inr "const Baz = () => <span/>"))])) =
    (Fs readdir "/app/src/widgets" None
       :: [Fs stat "/app/src/widgets/Bar.tsx" None;
           Fs readFile "/app/src/widgets/Bar.tsx" None]
       ++ [Fs stat "/app/src/widgets/broken.tsx" None;
           Fs readFile "/app/src/widgets/broken.tsx" None]
       ++ trace (scanEntries sampleArgs "src" isAvailableFileModel parseSample
                   "/app/src/widgets"
                   [("Baz.jsx", File (inr "const Baz = () => <span/>"))]
                   ([Bar] ++ produced)),
     outcome (scanEntries sampleArgs "src" isAvailableFileModel parseSample
                "/app/src/widgets"
                [("Baz.jsx", File (inr "const Baz = () => <span/>"))]
                ([Bar] ++ produced))) /\
    (forall displayName,
       parseSample "export default 42" = inr (Some displayName) -> displayName <> "" ->
       produced = [mkComponent displayName "/app/src/widgets/broken.tsx" "export default 42"]) /\
    ((exists e, parseSample "export default 42" = inl e) \/
     parseSample "export default 42" = inr None \/
     parseSample "export default 42" = inr (Some "") ->
     produced = []).
Proof.
  exact (@C5_extraction_per_eligible_file sampleArgs "src" isAvailableFileModel
           parseSample "/app/src/widgets" true
           [("Bar.tsx", File (inr "const Bar = () => <Foo/>"))]
           [("Baz.jsx", File (inr "const Baz = () => <span/>"))]
           "broken.tsx" "export default 42"
           [Fs stat "/app/src/widgets/Bar.tsx" None;
            Fs readFile "/app/src/widgets/Bar.tsx" None]
           [Bar] eq_refl eq_refl).
Defined.

Lemma advisory_returns (argv : args.t) (baseUrl : string) :
  advisory argv baseUrl = (trace (advisory argv baseUrl), inr tt).
Proof.
  unfold advisory.
  destruct (args.verbose argv && args.absoluteImports argv); [|reflexivity].
  destruct (truthy (args.path argv)); reflexivity.
Qed.

(** An exception of the walk ends [main] on the spot. *)
Lemma main_aborts (argv : args.t) (Disk : Type)
  (deleteComponent : Component -> Disk -> error + Disk) (confirm : nat -> bool)
  (baseUrl : string) (isAvailableFile : string -> bool)
  (parse : string -> error + option string) (isImported : string -> string -> bool)
  (cwd : string) (fs : string -> listing) (disk : Disk) (e : error) :
  outcome (getComponentsFromDir argv baseUrl isAvailableFile parse (startPath argv cwd)
             false (fs (scanRoot argv baseUrl cwd))) = inl e ->
  main argv deleteComponent confirm baseUrl isAvailableFile parse isImported cwd fs disk =
  (trace (advisory argv baseUrl)
     ++ SpinnerStart "Searching zombie components"
     :: trace (getComponentsFromDir argv baseUrl isAvailableFile parse
                 (startPath argv cwd) false (fs (scanRoot argv baseUrl cwd))),
   inl e).
Proof.
  intros H. unfold main. rewrite advisory_returns, bind_returns.
  unfold emit. rewrite bind_returns. cbv zeta. fold (scanRoot argv baseUrl cwd).
  destruct (getComponentsFromDir argv baseUrl isAvailableFile parse (startPath argv cwd)
              false (fs (scanRoot argv baseUrl cwd))) as [t r].
  rewrite outcome_pair in H. subst r.
  rewrite bind_throws, !trace_pair, !outcome_pair. reflexivity.
Qed.

(** C9: a filesystem failure on the way of the walk (the listing of a
    directory it enters, the stat of an entry, the read of an eligible
    file) is not recovered.  The walk throws, and returns no component
    list, exactly when the tree holds such a failure; what it throws is
    one of these failures; and [main] then stops right after the walk,
    with the same exception: no count is printed, nothing is asked and
    nothing is deleted. *)
Theorem C9_filesystem_failure_aborts_the_run :
  forall (argv : args.t) (Disk : Type)
         (deleteComponent : Component -> Disk -> error + Disk) (confirm : nat -> bool)
         (baseUrl : string) (isAvailableFile : string -> bool)
         (parse : string -> error + option string)
         (isImported : string -> string -> bool)
         (start : string) (isSubfolder : bool) (d : listing),
    let run := getComponentsFromDir argv baseUrl isAvailableFile parse start isSubfolder d in
    ((exists e, failure (skipped argv) isAvailableFile d e) <->
     (exists e, outcome run = inl e)) /\
    (forall e, outcome run = inl e -> failure (skipped argv) isAvailableFile d e) /\
    (forall e components, failure (skipped argv) isAvailableFile d e ->
       outcome run <> inr components) /\
    (forall (cwd : string) (fs : string -> listing) (disk : Disk) (e : error),
       outcome (getComponentsFromDir argv baseUrl isAvailableFile parse
                  (startPath argv cwd) false (fs (scanRoot argv baseUrl cwd))) = inl e ->
       main argv deleteComponent confirm baseUrl isAvailableFile parse isImported
            cwd fs disk =
       (trace (advisory argv baseUrl)
          ++ SpinnerStart "Searching zombie components"
          :: trace (getComponentsFromDir argv baseUrl isAvailableFile parse
                      (startPath argv cwd) false (fs (scanRoot argv baseUrl cwd))),
        inl e)).
Proof.
  intros argv Disk deleteComponent confirm baseUrl isAvailableFile parse isImported
         start isSubfolder d run.
  split; [|split; [|split]].
  - split.
    + intros [e He]. now apply failure_throws with (e := e).
    + intros [e He]. exists e. now apply throws_failure in He.
  - intros e He. now apply throws_failure in He.
  - intros e components Hf Hrun.
    destruct (failure_throws baseUrl parse Hf start isSubfolder) as [e' He'].
    unfold run in Hrun. rewrite He' in Hrun. discriminate.
  - intros cwd fs disk e He. now apply main_aborts.
Qed.

(** * Facts on the deletion workflow *)

Lemma promptCount_app (t1 t2 : list event) :
  promptCount (t1 ++ t2) = promptCount t1 + promptCount t2.
Proof.
  induction t1 as [|ev t1 IH]; [reflexivity|].
  destruct ev; simpl; now rewrite IH.
Qed.

Lemma promptCount_zero (t : list event) :
  promptCount t = 0 <-> forall message answer, ~ In (Prompt message answer) t.
Proof.
  induction t as [|ev t IH]; simpl.
  - split; [intros _ message answer []|reflexivity].
  - destruct ev; try (rewrite IH; split; intros H message0 answer0;
                      [intros [E|Hin]; [discriminate E|exact (H _ _ Hin)]
                      |intros Hin; apply (H message0 answer0); now right]).
    split; [discriminate|]. intros H. elim (H message answer). now left.
Qed.


Lemma deleteCalls_map (components : list Component) :
  deleteCalls (map DeleteComponent components) = components.
Proof.
  induction components as [|c rest IH]; simpl; [reflexivity|now rewrite IH].
Qed.

Section DeletionFacts.

Variable argv : args.t.
Variable Disk : Type.
Variable deleteComponent : Component -> Disk -> error + Disk.
Variable confirm : nat -> bool.

Lemma callDelete_runs (c : Component) (disk : Disk) :
  callDelete deleteComponent c disk = ([DeleteComponent c], deleteComponent c disk).
Proof.
  unfold callDelete. now destruct (deleteComponent c disk).
Qed.

Lemma deleteComponents_cons (c : Component) (rest : list Component) (disk : Disk) :
  deleteComponents deleteComponent (c :: rest) disk =
  bind (callDelete deleteComponent c disk)
       (fun disk' => deleteComponents deleteComponent rest disk').
Proof. reflexivity. Qed.

Lemma deleteComponents_trace (components : list Component) (disk : Disk) (ev : event) :
  In ev (trace (deleteComponents deleteComponent components disk)) ->
  exists c, ev = DeleteComponent c /\ In c components.
Proof.
  revert disk. induction components as [|c rest IH]; intros disk.
  - intros [].
  - rewrite deleteComponents_cons, callDelete_runs. intros H.
    apply trace_bind_in in H. destruct H as [[<-|[]]|(disk' & _ & H)].
    + exists c. split; [reflexivity|now left].
    + destruct (IH _ H) as (c' & -> & Hc'). exists c'. split; [reflexivity|now right].
Qed.

Lemma deleteComponents_succeed (components : list Component) (disk : Disk) :
  deletesSucceed deleteComponent components disk ->
  exists disk',
    deleteComponents deleteComponent components disk =
    (map DeleteComponent components, inr disk').
Proof.
  revert disk. induction components as [|c rest IH]; intros disk.
  - intros _. exists disk. reflexivity.
  - intros (disk1 & Hc & Hrest). destruct (IH _ Hrest) as [disk' Hrun].
    exists disk'. rewrite deleteComponents_cons, callDelete_runs.
    rewrite Hc, bind_returns, Hrun. reflexivity.
Qed.

Lemma confirmDelete_cons (component : Component) (rest : list Component) (asked : nat)
  (disk : Disk) :
  confirmDelete argv deleteComponent confirm (component :: rest) asked disk =
  if confirm asked then
    match deleteComponent component disk with
    | inl e =>
        (itemLog argv component
           ++ [itemPrompt component true; DeleteComponent component], inl e)
    | inr disk' =>
        (itemLog argv component
           ++ itemPrompt component true :: DeleteComponent component
           :: trace (confirmDelete argv deleteComponent confirm rest (S asked) disk'),
         outcome (confirmDelete argv deleteComponent confirm rest (S asked) disk'))
    end
  else
    (itemLog argv component
       ++ itemPrompt component false
       :: trace (confirmDelete argv deleteComponent confirm rest (S asked) disk),
     outcome (confirmDelete argv deleteComponent confirm rest (S asked) disk)).
Proof.
  unfold itemLog, itemPrompt, log, emit, ret.
  change (confirmDelete argv deleteComponent confirm (component :: rest) asked disk)
    with (bind (if args.verbose argv then ([Log (content component)], inr tt)
                else ([], inr tt))
            (fun _ =>
               bind ([Prompt ("Do you want to delete " ++ path component ++ " ?")%string
                             (confirm asked)], inr tt)
                 (fun _ =>
                    bind (if confirm asked
                          then callDelete deleteComponent component disk
                          else ([], inr disk))
                      (fun disk' =>
                         confirmDelete argv deleteComponent confirm rest (S asked) disk')))).
  rewrite callDelete_runs.
  destruct (args.verbose argv), (confirm asked);
    rewrite !bind_returns, ?trace_pair, ?outcome_pair;
    try destruct (deleteComponent component disk) as [e|disk'];
    rewrite ?bind_throws, ?bind_returns, ?trace_pair, ?outcome_pair; reflexivity.
Qed.

Lemma confirmDelete_app (before after : list Component) (asked : nat) (disk : Disk) :
  confirmDelete argv deleteComponent confirm (before ++ after) asked disk =
  bind (confirmDelete argv deleteComponent confirm before asked disk)
       (fun disk' =>
          confirmDelete argv deleteComponent confirm after (asked + length before) disk').
Proof.
  revert asked disk. induction before as [|c rest IH]; intros asked disk.
  - simpl app. simpl length. rewrite Nat.add_0_r.
    change (confirmDelete argv deleteComponent confirm [] asked disk) with (ret disk).
    now rewrite bind_ret_l.
  - rewrite <- app_comm_cons, !confirmDelete_cons. simpl length.
    destruct (confirm asked).
    + destruct (deleteComponent c disk) as [e|disk']; [reflexivity|].
      rewrite IH, Nat.add_succ_comm.
      destruct (confirmDelete argv deleteComponent confirm rest (S asked) disk')
        as [t [e|disk'']].
      * reflexivity.
      * rewrite !bind_returns, !trace_pair, !outcome_pair.
        rewrite bind_returns, <- app_assoc. reflexivity.
    + rewrite IH, Nat.add_succ_comm.
      destruct (confirmDelete argv deleteComponent confirm rest (S asked) disk)
        as [t [e|disk'']].
      * reflexivity.
      * rewrite !bind_returns, !trace_pair, !outcome_pair.
        rewrite bind_returns, <- app_assoc. reflexivity.
Qed.

End DeletionFacts.

Lemma walk_no_prompt (argv : args.t) (baseUrl : string)
  (isAvailableFile : string -> bool) (parse : string -> error + option string)
  (start : string) (isSubfolder : bool) (d : listing) :
  promptCount
    (trace (getComponentsFromDir argv baseUrl isAvailableFile parse start isSubfolder d))
  = 0.
Proof.
  apply promptCount_zero. intros message answer Hin.
  apply walk_located in Hin. exact Hin.
Qed.

(** [main] after a walk that went through. *)
Lemma main_returns (argv : args.t) (Disk : Type)
  (deleteComponent : Component -> Disk -> error + Disk) (confirm : nat -> bool)
  (baseUrl : string) (isAvailableFile : string -> bool)
  (parse : string -> error + option string) (isImported : string -> string -> bool)
  (cwd : string) (fs : string -> listing) (disk : Disk) (components : list Component) :
  outcome (getComponentsFromDir argv baseUrl isAvailableFile parse (startPath argv cwd)
             false (fs (scanRoot argv baseUrl cwd))) = inr components ->
  main argv deleteComponent confirm baseUrl isAvailableFile parse isImported cwd fs disk =
  (trace (advisory argv baseUrl)
     ++ SpinnerStart "Searching zombie components"
     :: trace (getComponentsFromDir argv baseUrl isAvailableFile parse
                 (startPath argv cwd) false (fs (scanRoot argv baseUrl cwd)))
     ++ Log (nl ++ nl ++ showNat (length components) ++ " components found! " ++ nl)%string
     :: SpinnerStop
     :: Log (showNat (length (getUnusedComponents isImported components))
             ++ " unused components found! " ++ nl)%string
     :: trace (deletionWorkflow argv deleteComponent confirm
                 (getUnusedComponents isImported components) disk),
   outcome (deletionWorkflow argv deleteComponent confirm
              (getUnusedComponents isImported components) disk)).
Proof.
  intros H. unfold main. rewrite advisory_returns, bind_returns.
  unfold log, emit. rewrite bind_returns. cbv zeta. fold (scanRoot argv baseUrl cwd).
  destruct (getComponentsFromDir argv baseUrl isAvailableFile parse (startPath argv cwd)
              false (fs (scanRoot argv baseUrl cwd))) as [t r].
  rewrite outcome_pair in H. subst r.
  rewrite !bind_returns, !trace_pair, !outcome_pair.
  reflexivity.
Qed.

(** * Theorems on the deletion workflow *)

(** C7: with the force flag the deletion workflow asks nothing and hands
    every unused component, in order, to the delete capability, which is
    its whole trace; when each of these deletions succeeds the workflow
    returns, having deleted them all, so that two unused components are
    both deleted unprompted.  The run of [main] as a whole then issues no
    prompt either. *)
Theorem C7_forced_mode_deletes_all_unprompted :
  forall (argv : args.t) (Disk : Type)
         (deleteComponent : Component -> Disk -> error + Disk) (confirm : nat -> bool)
         (zombieComponents : list Component) (disk : Disk),
    args.force argv = true ->
    let run := deletionWorkflow argv deleteComponent confirm zombieComponents disk in
    promptCount (trace run) = 0 /\
    (forall ev, In ev (trace run) ->
       exists c, ev = DeleteComponent c /\ In c zombieComponents) /\
    (deletesSucceed deleteComponent zombieComponents disk ->
       trace run = map DeleteComponent zombieComponents /\
       deleteCalls (trace run) = zombieComponents /\
       exists disk', outcome run = inr disk') /\
    (forall c1 c2 disk1 disk2,
       zombieComponents = [c1; c2] ->
       deleteComponent c1 disk = inr disk1 ->
       deleteComponent c2 disk1 = inr disk2 ->
       run = ([DeleteComponent c1; DeleteComponent c2], inr disk2)) /\
    (forall (baseUrl : string) (isAvailableFile : string -> bool)
            (parse : string -> error + option string)
            (isImported : string -> string -> bool)
            (cwd : string) (fs : string -> listing),
       promptCount
         (trace (main argv deleteComponent confirm baseUrl isAvailableFile parse
                      isImported cwd fs disk)) = 0).
Proof.
  intros argv Disk deleteComponent confirm zombieComponents disk Hforce run.
  assert (Hwf : forall zs, deletionWorkflow argv deleteComponent confirm zs disk =
                           deleteComponents deleteComponent zs disk)
    by (intros zs; unfold deletionWorkflow; now rewrite Hforce).
  assert (Hnone : forall zs,
            promptCount (trace (deletionWorkflow argv deleteComponent confirm zs disk)) = 0).
  { intros zs. rewrite Hwf. apply promptCount_zero. intros message answer Hin.
    apply deleteComponents_trace in Hin. destruct Hin as (c & E & _). discriminate E. }
  unfold run. split; [apply Hnone|]. split; [|split; [|split]].
  - rewrite Hwf. apply deleteComponents_trace.
  - intros Hok. rewrite Hwf.
    apply deleteComponents_succeed in Hok. destruct Hok as [disk' ->].
    rewrite trace_pair, outcome_pair, deleteCalls_map. eauto.
  - intros c1 c2 disk1 disk2 -> H1 H2. rewrite Hwf.
    rewrite deleteComponents_cons, callDelete_runs.
    rewrite H1, bind_returns. cbv beta.
    rewrite deleteComponents_cons, callDelete_runs.
    rewrite H2, bind_returns. reflexivity.
  - intros baseUrl isAvailableFile parse isImported cwd fs.
    destruct (outcome (getComponentsFromDir argv baseUrl isAvailableFile parse
                         (startPath argv cwd) false (fs (scanRoot argv baseUrl cwd))))
      as [e|components] eqn:Hwalk.
    + rewrite main_aborts with (e := e) by exact Hwalk. rewrite trace_pair.
      rewrite promptCount_app. simpl promptCount. rewrite walk_no_prompt.
      rewrite Nat.add_0_r. apply promptCount_zero. intros message answer Hin.
      unfold advisory in Hin.
      destruct (args.verbose argv && args.absoluteImports argv);
        [destruct (truthy (args.path argv))|];
        simpl in Hin; intuition discriminate.
    + rewrite main_returns with (components := components) by exact Hwalk.
      rewrite trace_pair.
      rewrite promptCount_app. simpl promptCount. rewrite promptCount_app.
      simpl promptCount. rewrite walk_no_prompt, Hnone.
      rewrite Nat.add_0_r. apply promptCount_zero. intros message answer Hin.
      unfold advisory in Hin.
      destruct (args.verbose argv && args.absoluteImports argv);
        [destruct (truthy (args.path argv))|];
        simpl in Hin; intuition discriminate.
Qed.

Lemma C7_forced_mode_deletes_all_unprompted_witness :
  args.force forcedArgs = true /\
  deletionWorkflow forcedArgs unlinkSample sampleAnswers [Bar; Baz] sampleDisk =
  ([DeleteComponent Bar; DeleteComponent Baz], inr ["/app/src/Foo.tsx"]).
Proof.
  split; [reflexivity|].
  exact (proj1 (proj2 (proj2 (proj2
           (@C7_forced_mode_deletes_all_unprompted forcedArgs (list string)
              unlinkSample sampleAnswers [Bar; Baz] sampleDisk eq_refl))))
           Bar Baz ["/app/src/Foo.tsx"; "/app/src/widgets/Baz.jsx"] ["/app/src/Foo.tsx"]
           eq_refl eq_refl eq_refl).
Defined.

(** C8: in interactive mode, an item whose prompt is answered "no",
    reached after the items before it went through, is logged (with the
    verbose flag) and asked about, and that is all: the delete capability
    is not called for it, the disk stays as the items before left it, and
    the loop goes on with the item that follows. *)
Theorem C8_declined_item_is_kept :
  forall (argv : args.t) (Disk : Type)
         (deleteComponent : Component -> Disk -> error + Disk) (confirm : nat -> bool)
         (before after : list Component) (component : Component)
         (asked : nat) (disk disk1 : Disk) (t1 : list event),
    let k := asked + length before in
    confirmDelete argv deleteComponent confirm before asked disk = (t1, inr disk1) ->
    confirm k = false ->
    confirmDelete argv deleteComponent confirm (before ++ component :: after) asked disk =
      (t1 ++ itemLog argv component
          ++ itemPrompt component false
          :: trace (confirmDelete argv deleteComponent confirm after (S k) disk1),
       outcome (confirmDelete argv deleteComponent confirm after (S k) disk1)) /\
    confirmDelete argv deleteComponent confirm [component] k disk1 =
      (itemLog argv component ++ [itemPrompt component false], inr disk1) /\
    deleteCalls (itemLog argv component ++ [itemPrompt component false]) = [].
Proof.
  intros argv Disk deleteComponent confirm before after component asked disk disk1 t1 k
         Hbefore Hno.
  split; [|split].
  - rewrite confirmDelete_app, Hbefore, bind_returns. fold k.
    rewrite confirmDelete_cons, Hno, trace_pair, outcome_pair. reflexivity.
  - rewrite confirmDelete_cons, Hno. reflexivity.
  - unfold itemLog, itemPrompt. now destruct (args.verbose argv).
Qed.

Lemma C8_declined_item_is_kept_witness :
  confirmDelete sampleArgs unlinkSample sampleAnswers ([Foo] ++ Bar :: [Baz]) 0 sampleDisk =
  ([itemPrompt Foo true; DeleteComponent Foo]
     ++ itemLog sampleArgs Bar
     ++ itemPrompt Bar false
     :: trace (confirmDelete sampleArgs unlinkSample sampleAnswers [Baz] 2
                 ["/app/src/widgets/Bar.tsx"; "/app/src/widgets/Baz.jsx"]),
   outcome (confirmDelete sampleArgs unlinkSample sampleAnswers [Baz] 2
              ["/app/src/widgets/Bar.tsx"; "/app/src/widgets/Baz.jsx"])).
Proof.
  exact (proj1 (@C8_declined_item_is_kept sampleArgs (list string) unlinkSample
                  sampleAnswers [Foo] [Baz] Bar 0 sampleDisk
                  ["/app/src/widgets/Bar.tsx"; "/app/src/widgets/Baz.jsx"]
                  [itemPrompt Foo true; DeleteComponent Foo]
                  eq_refl eq_refl)).
Defined.

(** * Sample runs *)

(** The walk of the sample tree reads the three component files and the
    unparsable one, and neither the ineligible [notes.md] nor anything
    below [node_modules]. *)
Example sample_walk :
  getComponentsFromDir sampleArgs "src" isAvailableFileModel parseSample "/app" false
    sampleTree =
  ([Fs readdir "/app/src" None;
    Fs stat "/app/src/Foo.tsx" None; Fs readFile "/app/src/Foo.tsx" None;
    Fs stat "/app/src/notes.md" None;
    Fs stat "/app/src/node_modules" None;
    Fs stat "/app/src/widgets" None; Fs readdir "/app/src/widgets" None;
    Fs stat "/app/src/widgets/Bar.tsx" None; Fs readFile "/app/src/widgets/Bar.tsx" None;
    Fs stat "/app/src/widgets/broken.tsx" None;
    Fs readFile "/app/src/widgets/broken.tsx" None;
    Fs stat "/app/src/widgets/Baz.jsx" None; Fs readFile "/app/src/widgets/Baz.jsx" None],
   inr [Foo; Bar; Baz]).
Proof. reflexivity. Qed.

(** An unreadable component file ends the walk. *)
Example broken_walk :
  getComponentsFromDir sampleArgs "src" isAvailableFileModel parseSample "/app" false
    brokenTree =
  ([Fs readdir "/app/src" None;
    Fs stat "/app/src/Foo.tsx" None; Fs readFile "/app/src/Foo.tsx" None;
    Fs stat "/app/src/widgets" None; Fs readdir "/app/src/widgets" None;
    Fs stat "/app/src/widgets/Bar.tsx" None;
    Fs readFile "/app/src/widgets/Bar.tsx" (Some "EACCES")],
   inl "EACCES").
Proof. reflexivity. Qed.

(** The scenario of the spec: [Foo] is used, [Bar] is not. *)
Example scenario_resolved :
  getUnusedComponents isImportedModel [scenarioA; scenarioB] = [scenarioB].
Proof. reflexivity. Qed.

(** Interactive deletion of [Foo], [Bar] and [Baz], the second prompt
    being declined: [Bar] stays on disk. *)
Example sample_interactive_deletion :
  deletionWorkflow sampleArgs unlinkSample sampleAnswers [Foo; Bar; Baz] sampleDisk =
  ([itemPrompt Foo true; DeleteComponent Foo;
    itemPrompt Bar false;
    itemPrompt Baz true; DeleteComponent Baz;
    Log (nl ++ "Bye bye!")%string],
   inr ["/app/src/widgets/Bar.tsx"]).
Proof. reflexivity. Qed.

(** * Further properties: the vendor marker *)

Lemma prefix_app (p t : string) : String.prefix p (p ++ t) = true.
Proof.
  induction p as [|c p IH]; simpl.
  - now destruct t.
  - destruct (ascii_dec c c) as [_|Hne]; [exact IH|now elim Hne].
Qed.

Lemma prefix_split (p s : string) :
  String.prefix p s = true -> exists t, s = (p ++ t)%string.
Proof.
  revert s. induction p as [|c p IH]; intros s; simpl.
  - intros _. exists s. reflexivity.
  - destruct s as [|c' s]; simpl; [intros H; discriminate H|].
    destruct (ascii_dec c c') as [<-|_]; [|intros H; discriminate H].
    intros H. destruct (IH s H) as [t ->]. exists t. reflexivity.
Qed.

Lemma includes_unfold (s search : string) :
  includes s search =
  if String.prefix search s then true
  else match s with
       | EmptyString => false
       | String _ rest => includes rest search
       end.
Proof. now destruct s. Qed.

(** [includes] is containment as a substring. *)
Lemma includes_substring (s search : string) :
  includes s search = true <->
  exists before after, s = (before ++ search ++ after)%string.
Proof.
  split.
  - induction s as [|c s IH]; rewrite includes_unfold.
    + destruct (String.prefix search "") eqn:Hp; [|discriminate].
      intros _. apply prefix_split in Hp. destruct Hp as [t Ht].
      exists "", t. exact Ht.
    + destruct (String.prefix search (String c s)) eqn:Hp.
      * intros _. apply prefix_split in Hp. destruct Hp as [t Ht].
        exists "", t. exact Ht.
      * intros H. destruct (IH H) as (before & after & ->).
        exists (String c before), after. reflexivity.
  - intros (before & after & ->).
    induction before as [|c before IH]; rewrite includes_unfold.
    + simpl append. now rewrite prefix_app.
    + simpl append.
      destruct (String.prefix search (String c (before ++ search ++ after)));
        [reflexivity|exact IH].
Qed.


(** * Further properties: what the walk finds *)

Section WalkResults.

Variable argv : args.t.
Variable baseUrl : string.
Variable isAvailableFile : string -> bool.
Variable parse : string -> error + option string.

Local Abbreviation walk := (getComponentsFromDir argv baseUrl isAvailableFile parse).
Local Abbreviation scan := (scanEntries argv baseUrl isAvailableFile parse).
Local Abbreviation step := (visit argv isAvailableFile parse walk).
Local Abbreviation full := (useFullPath argv baseUrl).

(** The callback only appends to its accumulator. *)
Lemma step_extends (U : string) (acc : list Component) (entry : string * node) :
  step U acc entry = extend acc (step U [] entry).
Proof.
  destruct entry as [fileName n]. destruct n as [e|read|sub].
  - reflexivity.
  - destruct (isAvailableFile fileName) eqn:Hel.
    + destruct read as [e|text].
      * rewrite !step_file_unreadable by exact Hel. reflexivity.
      * rewrite !step_file_read by exact Hel. reflexivity.
    + rewrite !step_file_ineligible by exact Hel. unfold extend.
      rewrite trace_pair, outcome_pair. now rewrite app_nil_r.
  - destruct (skipped argv fileName) eqn:Hskip.
    + rewrite !step_dir_skipped by exact Hskip. unfold extend.
      rewrite trace_pair, outcome_pair. now rewrite app_nil_r.
    + rewrite !step_dir_entered by exact Hskip. unfold extend.
      rewrite trace_pair, outcome_pair.
      now destruct (outcome (walk (U ++ "/" ++ fileName)%string true sub)).
Qed.

Lemma scan_nil (U : string) (acc : list Component) : scan U [] acc = ([], inr acc).
Proof. reflexivity. Qed.

Lemma scan_cons (U : string) (entry : string * node) (rest : list (string * node))
  (acc : list Component) :
  scan U (entry :: rest) acc = bind (step U acc entry) (fun acc' => scan U rest acc').
Proof. reflexivity. Qed.

(** So does the whole reduction. *)
Lemma scan_extends (U : string) (files : list (string * node)) (acc : list Component) :
  scan U files acc = extend acc (scan U files []).
Proof.
  revert acc. induction files as [|entry rest IH]; intros acc.
  - rewrite !scan_nil. unfold extend. rewrite trace_pair, outcome_pair.
    now rewrite app_nil_r.
  - rewrite !scan_cons, step_extends.
    destruct (step U [] entry) as [t [e|found]]; unfold extend at 1;
      rewrite trace_pair, outcome_pair; [reflexivity|].
    rewrite !bind_returns. cbv beta.
    rewrite (IH (acc ++ found)), (IH found). unfold extend.
    rewrite !trace_pair, !outcome_pair.
    destruct (outcome (scan U rest [])) as [e|found']; [reflexivity|].
    now rewrite app_assoc.
Qed.

(** The result of a listing is what its first entry yields followed by
    what the others do. *)
Lemma scan_cons_outcome (U : string) (entry : string * node)
  (rest : list (string * node)) :
  outcome (scan U (entry :: rest) []) =
  match outcome (step U [] entry) with
  | inl e => inl e
  | inr found =>
      match outcome (scan U rest []) with
      | inl e => inl e
      | inr found' => inr (found ++ found')
      end
  end.
Proof.
  rewrite scan_cons.
  destruct (step U [] entry) as [t [e|found]]; [reflexivity|].
  rewrite bind_returns, !outcome_pair. cbv beta.
  rewrite scan_extends. unfold extend. now rewrite outcome_pair.
Qed.

Lemma scan_app_outcome (U : string) (files1 files2 : list (string * node)) :
  outcome (scan U (files1 ++ files2) []) =
  match outcome (scan U files1 []) with
  | inl e => inl e
  | inr found1 =>
      match outcome (scan U files2 []) with
      | inl e => inl e
      | inr found2 => inr (found1 ++ found2)
      end
  end.
Proof.
  induction files1 as [|entry rest IH].
  - change ([] ++ files2) with files2. rewrite scan_nil, outcome_pair.
    now destruct (outcome (scan U files2 [])).
  - rewrite <- app_comm_cons, !scan_cons_outcome, IH.
    destruct (outcome (step U [] entry)) as [e|found]; [reflexivity|].
    destruct (outcome (scan U rest [])) as [e|found1]; [reflexivity|].
    destruct (outcome (scan U files2 [])) as [e|found2]; [reflexivity|].
    now rewrite app_assoc.
Qed.

Lemma scan_app_trace (U : string) (files1 files2 : list (string * node))
  (found1 : list Component) :
  outcome (scan U files1 []) = inr found1 ->
  trace (scan U (files1 ++ files2) []) =
  trace (scan U files1 []) ++ trace (scan U files2 []).
Proof.
  intros H. unfold scanEntries in *. rewrite reduce_app.
  fold (scan U files1 []) in *.
  destruct (scan U files1 []) as [t r]. rewrite outcome_pair in H. subst r.
  rewrite bind_returns, !trace_pair. cbv beta.
  fold (scan U files2 found1). fold (scan U files2 []).
  rewrite scan_extends. unfold extend. now rewrite trace_pair.
Qed.

(** What an entry yields is part of what its directory yields. *)
Lemma scan_entry_yield (U : string) (files : list (string * node))
  (entry : string * node) (components : list Component) :
  In entry files ->
  outcome (scan U files []) = inr components ->
  exists found, outcome (step U [] entry) = inr found /\ incl found components.
Proof.
  revert components. induction files as [|x rest IH]; intros components Hin; [destruct Hin|].
  rewrite scan_cons_outcome.
  destruct (outcome (step U [] x)) as [e|found] eqn:Hx; [discriminate|].
  destruct (outcome (scan U rest [])) as [e|found'] eqn:Hrest; [discriminate|].
  intros H. injection H as <-. destruct Hin as [->|Hin].
  - exists found. split; [exact Hx|]. now apply incl_appl, incl_refl.
  - destruct (IH found' Hin eq_refl) as (f & Hf & Hincl).
    exists f. split; [exact Hf|]. now apply incl_appr.
Qed.

Lemma entered_cons (dirName : string) (dirs : list string) :
  entered argv (dirName :: dirs) -> skipped argv dirName = false /\ entered argv dirs.
Proof. intros H. inversion H; subst. now split. Qed.

Lemma noVendor_entered (dirs : list string) :
  (args.ignoreNodeModules argv = true -> noVendor dirs) -> entered argv dirs.
Proof.
  unfold entered, noVendor, skipped. intros H.
  destruct (args.ignoreNodeModules argv).
  - specialize (H eq_refl). induction H as [|x l Hx Hl IH]; constructor; auto.
  - clear H. induction dirs as [|x l IH]; constructor; auto.
Qed.

(** No eligible file with a display name is missed. *)
Lemma walk_complete (d : listing) (dirs : list string) (d' : listing) :
  dirAt d dirs d' ->
  forall (files : list (string * node)) (fileName text : string)
         (start : string) (isSubfolder : bool) (components : list Component),
    d' = Entries files ->
    In (fileName, File (inr text)) files ->
    isAvailableFile fileName = true ->
    entered argv dirs ->
    nonEmpty (getComponentName parse text) = true ->
    outcome (walk start isSubfolder d) = inr components ->
    In (mkComponent (getComponentName parse text)
                    (joinPath (full start isSubfolder) (dirs ++ [fileName])) text)
       components.
Proof.
  induction 1 as [d|files0 dirName sub dirs d' Hin0 Hat IH];
    intros files fileName text start isSubfolder components Hd Hin Hel Hent Hname Hout.
  - subst d. rewrite walk_entries, outcome_pair in Hout.
    destruct (scan_entry_yield _ _ _ Hin Hout) as (found & Hstep & Hincl).
    rewrite step_file_read, outcome_pair, Hname in Hstep by exact Hel.
    injection Hstep as <-. apply Hincl. now left.
  - apply entered_cons in Hent. destruct Hent as [Hskip Hent].
    rewrite walk_entries, outcome_pair in Hout.
    destruct (scan_entry_yield _ _ _ Hin0 Hout) as (found & Hstep & Hincl).
    rewrite step_dir_entered, outcome_pair in Hstep by exact Hskip.
    destruct (outcome (walk (full start isSubfolder ++ "/" ++ dirName)%string true sub))
      as [e|foundSub] eqn:Hsub; [discriminate|].
    injection Hstep as <-. apply Hincl.
    specialize (IH files fileName text _ _ _ Hd Hin Hel Hent Hname Hsub).
    rewrite useFullPath_subfolder in IH. exact IH.
Qed.

End WalkResults.

(** X2: when the walk returns, its result holds exactly the components of
    the eligible files of the tree that can be read below directories it
    enters and for which react-docgen reports a display name that is not
    empty: none is missed and nothing else is yielded.  Each component
    carries that name, the path spelled from the root and the text of the
    file. *)
Theorem X2_result_is_exactly_the_named_eligible_files :
  forall (argv : args.t) (baseUrl : string) (isAvailableFile : string -> bool)
         (parse : string -> error + option string)
         (start : string) (isSubfolder : bool) (d : listing)
         (components : list Component),
    outcome (getComponentsFromDir argv baseUrl isAvailableFile parse start isSubfolder d)
    = inr components ->
    forall c : Component,
      In c components <->
      exists dirs fileName,
        entryAt d dirs fileName (File (inr (content c))) /\
        isAvailableFile fileName = true /\
        entered argv dirs /\
        path c = joinPath (useFullPath argv baseUrl start isSubfolder) (dirs ++ [fileName]) /\
        parse (content c) = inr (Some (name c)) /\
        name c <> "".
Proof.
  intros argv baseUrl isAvailableFile parse start isSubfolder d components Hout c.
  split.
  - intros Hc.
    destruct (walk_discovered _ _ _ _ _ _ _ Hout c Hc)
      as (dirs & f & Hat & Hel & Hp & Hn & Hparse & Hname).
    exists dirs, f. repeat split; auto. now apply noVendor_entered.
  - intros (dirs & f & (files & Hat & Hin) & Hel & Hent & Hp & Hparse & Hname).
    assert (Hget : getComponentName parse (content c) = name c)
      by (unfold getComponentName; now rewrite Hparse).
    assert (Hne : nonEmpty (getComponentName parse (content c)) = true).
    { rewrite Hget. destruct (name c); [now elim Hname|reflexivity]. }
    pose proof (@walk_complete argv baseUrl isAvailableFile parse d dirs (Entries files)
                  Hat files f (content c) start isSubfolder components
                  eq_refl Hin Hel Hent Hne Hout) as H.
    rewrite Hget, <- Hp in H. now destruct c.
Qed.

Lemma X2_result_is_exactly_the_named_eligible_files_witness :
  In Bar [Foo; Bar; Baz] <->
  exists dirs fileName,
    entryAt sampleTree dirs fileName (File (inr (content Bar))) /\
    isAvailableFileModel fileName = true /\
    entered sampleArgs dirs /\
    path Bar = joinPath (useFullPath sampleArgs "src" "/app" false) (dirs ++ [fileName]) /\
    parseSample (content Bar) = inr (Some (name Bar)) /\
    name Bar <> "".
Proof.
  exact (@X2_result_is_exactly_the_named_eligible_files sampleArgs "src"
           isAvailableFileModel parseSample "/app" false sampleTree [Foo; Bar; Baz]
           eq_refl Bar).
Defined.

(** X3: the result follows the listing order, depth first.  The result of
    a directory listing cut in two is the result of the first part
    followed by the result of the second (an exception of the first part
    coming first), and an entered subdirectory alone yields what the walk
    of that subdirectory yields. *)
Theorem X3_result_in_listing_order_depth_first :
  forall (argv : args.t) (baseUrl : string) (isAvailableFile : string -> bool)
         (parse : string -> error + option string)
         (start : string) (isSubfolder : bool) (files1 files2 : list (string * node)),
    let run := getComponentsFromDir argv baseUrl isAvailableFile parse start isSubfolder in
    let root := useFullPath argv baseUrl start isSubfolder in
    outcome (run (Entries (files1 ++ files2))) =
      match outcome (run (Entries files1)) with
      | inl e => inl e
      | inr found1 =>
          match outcome (run (Entries files2)) with
          | inl e => inl e
          | inr found2 => inr (found1 ++ found2)
          end
      end /\
    (forall dirName sub,
       skipped argv dirName = false ->
       outcome (run (Entries [(dirName, Dir sub)])) =
       outcome (getComponentsFromDir argv baseUrl isAvailableFile parse
                  (root ++ "/" ++ dirName)%string true sub)).
Proof.
  intros argv baseUrl isAvailableFile parse start isSubfolder files1 files2 run root.
  unfold run. split.
  - rewrite !walk_entries, !outcome_pair. apply scan_app_outcome.
  - intros dirName sub Hskip. rewrite walk_entries, outcome_pair.
    rewrite scan_cons_outcome, scan_nil, outcome_pair.
    rewrite step_dir_entered, outcome_pair by exact Hskip. fold root.
    destruct (outcome (getComponentsFromDir argv baseUrl isAvailableFile parse
                         (root ++ "/" ++ dirName)%string true sub)) as [e|found];
      [reflexivity|].
    now rewrite app_nil_r.
Qed.

(** * Further properties: the calls of the walk *)

Lemma stops_bind {A B : Type} (m : Run A) (k : A -> Run B) :
  stopsAtFirstFailure m ->
  (forall a, outcome m = inr a -> stopsAtFirstFailure (k a)) ->
  stopsAtFirstFailure (bind m k).
Proof.
  destruct m as [t [e|a]]; intros Hm Hk; [exact Hm|].
  specialize (Hk a eq_refl). rewrite bind_returns.
  unfold stopsAtFirstFailure in *. rewrite outcome_pair, trace_pair in *.
  destruct (outcome (k a)) as [e|b].
  - destruct Hk as (call & target & before & -> & Hbefore).
    exists call, target, (t ++ before). split; [now rewrite app_assoc|].
    apply Forall_app. now split.
  - apply Forall_app. now split.
Qed.

Lemma stops_reduce {A B : Type} (f : B -> A -> Run B) (l : list A) :
  (forall acc x, In x l -> stopsAtFirstFailure (f acc x)) ->
  forall acc, stopsAtFirstFailure (reduce f l acc).
Proof.
  induction l as [|x l IH]; intros H acc.
  - unfold stopsAtFirstFailure. simpl. constructor.
  - change (reduce f (x :: l) acc) with (bind (f acc x) (fun acc' => reduce f l acc')).
    apply stops_bind; [apply H; now left|].
    intros acc' _. apply IH. intros a y Hy. apply H. now right.
Qed.

Lemma stops_call_ok {A : Type} (call : syscall) (target : string) (a : A) :
  stopsAtFirstFailure ([Fs call target None], inr a).
Proof. unfold stopsAtFirstFailure. simpl. now repeat constructor. Qed.

Lemma stops_call_fails {A : Type} (call : syscall) (target : string) (e : error) :
  stopsAtFirstFailure (A := A) ([Fs call target (Some e)], inl e).
Proof.
  unfold stopsAtFirstFailure. simpl. exists call, target, []. split; [reflexivity|constructor].
Qed.

Lemma stops_cons_ok {A : Type} (call : syscall) (target : string) (t : list event)
  (r : error + A) :
  stopsAtFirstFailure (t, r) -> stopsAtFirstFailure (Fs call target None :: t, r).
Proof.
  unfold stopsAtFirstFailure. rewrite !outcome_pair, !trace_pair.
  destruct r as [e|a].
  - intros (c & p & before & -> & Hb).
    exists c, p, (Fs call target None :: before). split; [reflexivity|].
    constructor; [exact I|exact Hb].
  - intros H. constructor; [exact I|exact H].
Qed.

Section WalkCalls.

Variable argv : args.t.
Variable baseUrl : string.
Variable isAvailableFile : string -> bool.
Variable parse : string -> error + option string.

Local Abbreviation walk := (getComponentsFromDir argv baseUrl isAvailableFile parse).
Local Abbreviation step := (visit argv isAvailableFile parse walk).

Lemma walk_stops (d : listing) :
  forall (start : string) (isSubfolder : bool),
    stopsAtFirstFailure (walk start isSubfolder d).
Proof.
  induction d as [e|files IH] using listing_induction; intros start isSubfolder.
  - rewrite walk_fails. apply stops_call_fails.
  - rewrite walk_entries. apply stops_cons_ok.
    set (U := useFullPath argv baseUrl start isSubfolder).
    assert (Hscan : stopsAtFirstFailure
                      (scanEntries argv baseUrl isAvailableFile parse U files [])).
    { unfold scanEntries. apply stops_reduce. intros acc [fileName n] Hin.
      destruct n as [e|read|sub].
      - rewrite step_stat_fails. apply stops_call_fails.
      - destruct (isAvailableFile fileName) eqn:Hel.
        + destruct read as [e|text].
          * rewrite step_file_unreadable by exact Hel.
            apply stops_cons_ok, stops_call_fails.
          * rewrite step_file_read by exact Hel.
            apply stops_cons_ok, stops_call_ok.
        + rewrite step_file_ineligible by exact Hel. apply stops_call_ok.
      - destruct (skipped argv fileName) eqn:Hskip.
        + rewrite step_dir_skipped by exact Hskip. apply stops_call_ok.
        + rewrite step_dir_entered by exact Hskip. apply stops_cons_ok.
          specialize (IH fileName sub Hin (U ++ "/" ++ fileName)%string true).
          unfold stopsAtFirstFailure in *. rewrite outcome_pair, trace_pair.
          destruct (outcome (walk (U ++ "/" ++ fileName)%string true sub)); exact IH. }
    destruct (scanEntries argv baseUrl isAvailableFile parse U files []) as [t r].
    exact Hscan.
Qed.

End WalkCalls.

(** X4: the walk does nothing but read the filesystem, and only where it
    has to: every event of its trace is a filesystem call; it lists the
    root and directories of the tree, stats entries of the directories it
    lists, and calls [readFileSync] only on entries that are not
    directories and whose name [isAvailableFile] accepts; it never logs,
    prompts or deletes. *)
Theorem X4_walk_only_reads_eligible_files :
  forall (argv : args.t) (baseUrl : string) (isAvailableFile : string -> bool)
         (parse : string -> error + option string)
         (start : string) (isSubfolder : bool) (d : listing),
    let run := getComponentsFromDir argv baseUrl isAvailableFile parse start isSubfolder d in
    let root := useFullPath argv baseUrl start isSubfolder in
    Forall (fun ev => isFs ev = true) (trace run) /\
    Forall (fun ev =>
              forall p r, ev = Fs readFile p r ->
                exists dirs fileName read,
                  entryAt d dirs fileName (File read) /\
                  isAvailableFile fileName = true /\
                  entered argv dirs /\
                  p = joinPath root (dirs ++ [fileName]))
           (trace run) /\
    Forall (fun ev =>
              forall p r, ev = Fs readdir p r ->
                exists dirs d', dirAt d dirs d' /\ entered argv dirs /\
                                p = joinPath root dirs)
           (trace run).
Proof.
  intros argv baseUrl isAvailableFile parse start isSubfolder d run root.
  split; [|split]; apply Forall_forall; intros ev Hin; apply walk_located in Hin.
  - destruct ev; simpl in *; tauto.
  - intros p r ->. simpl in Hin. destruct Hin as (dirs & f & read & Hat & Hel & Hp & Hn).
    exists dirs, f, read. repeat split; auto. now apply noVendor_entered.
  - intros p r ->. simpl in Hin. destruct Hin as (dirs & d' & Hat & Hp & Hn).
    exists dirs, d'. repeat split; auto. now apply noVendor_entered.
Qed.

(** X5: the walk stops at the first filesystem call that throws.  When it
    returns a list, no call of its trace threw; when it throws [e], the
    call that threw [e] is the last event of the trace and the only one
    that threw: nothing is listed, stat'ed or read afterwards. *)
Theorem X5_walk_stops_at_first_failure :
  forall (argv : args.t) (baseUrl : string) (isAvailableFile : string -> bool)
         (parse : string -> error + option string)
         (start : string) (isSubfolder : bool) (d : listing),
    let run := getComponentsFromDir argv baseUrl isAvailableFile parse start isSubfolder d in
    (forall components, outcome run = inr components -> Forall successful (trace run)) /\
    (forall e, outcome run = inl e ->
       exists call target before,
         trace run = before ++ [Fs call target (Some e)] /\ Forall successful before).
Proof.
  intros argv baseUrl isAvailableFile parse start isSubfolder d run.
  pose proof (walk_stops argv baseUrl isAvailableFile parse d start isSubfolder) as H.
  fold run in H. unfold stopsAtFirstFailure in H. split.
  - intros components Hout. now rewrite Hout in H.
  - intros e Hout. now rewrite Hout in H.
Qed.

(** * Further properties: the usage resolver *)

Lemma referenced_app (isImported : string -> string -> bool)
  (components more : list Component) (c : Component) :
  referenced isImported (components ++ more) c =
  referenced isImported components c || referenced isImported more c.
Proof. unfold referenced. apply existsb_app. Qed.

(** X6: scanning more files never turns a used component into a zombie:
    a component of a list that is unused when further components are
    scanned with the list (after it or before it) is unused in the list
    alone. *)
Theorem X6_more_files_never_add_zombies :
  forall (isImported : string -> string -> bool)
         (components more : list Component) (c : Component),
    In c components ->
    In c (getUnusedComponents isImported (components ++ more)) \/
    In c (getUnusedComponents isImported (more ++ components)) ->
    In c (getUnusedComponents isImported components).
Proof.
  intros isImported components more c Hc H.
  rewrite !getUnusedComponents_filter, !filter_In, !referenced_app in *.
  split; [exact Hc|].
  destruct (referenced isImported components c); [|reflexivity].
  rewrite orb_true_r in H. simpl in H. destruct H as [[_ H]|[_ H]]; discriminate H.
Qed.

Lemma X6_more_files_never_add_zombies_witness :
  In scenarioB (getUnusedComponents isImportedModel [scenarioA; scenarioB]).
Proof.
  apply (@X6_more_files_never_add_zombies isImportedModel
           [scenarioA; scenarioB] [Baz] scenarioB).
  - simpl. auto.
  - left. vm_compute. auto.
Defined.

(** X7: the classification looks at the name only: two components of the
    list with the same display name are both unused or both used,
    whatever their paths and contents. *)
Theorem X7_same_name_same_classification :
  forall (isImported : string -> string -> bool)
         (components : list Component) (c1 c2 : Component),
    In c1 components -> In c2 components ->
    name c1 = name c2 ->
    (In c1 (getUnusedComponents isImported components) <->
     In c2 (getUnusedComponents isImported components)).
Proof.
  intros isImported components c1 c2 H1 H2 Hname.
  rewrite !getUnusedComponents_filter, !filter_In.
  unfold referenced. rewrite Hname. tauto.
Qed.

Lemma X7_same_name_same_classification_witness :
  In scenarioB
     (getUnusedComponents isImportedModel
        [scenarioA; scenarioB; mkComponent "Bar" "C.tsx" "export default 1"]) <->
  In (mkComponent "Bar" "C.tsx" "export default 1")
     (getUnusedComponents isImportedModel
        [scenarioA; scenarioB; mkComponent "Bar" "C.tsx" "export default 1"]).
Proof.
  apply (@X7_same_name_same_classification isImportedModel
           [scenarioA; scenarioB; mkComponent "Bar" "C.tsx" "export default 1"]
           scenarioB (mkComponent "Bar" "C.tsx" "export default 1")).
  - simpl. auto.
  - simpl. auto.
  - reflexivity.
Defined.

(** * Further properties: the interactive loop *)

Section InteractiveLoop.

Variable argv : args.t.
Variable Disk : Type.
Variable deleteComponent : Component -> Disk -> error + Disk.
Variable confirm : nat -> bool.

Local Abbreviation loop := (confirmDelete argv deleteComponent confirm).

Lemma loop_nil (asked : nat) (disk : Disk) : loop [] asked disk = ([], inr disk).
Proof. reflexivity. Qed.

Lemma deleteCalls_itemLog (c : Component) (t : list event) :
  deleteCalls (itemLog argv c ++ t) = deleteCalls t.
Proof. unfold itemLog. now destruct (args.verbose argv). Qed.

Lemma promptCount_itemLog (c : Component) (t : list event) :
  promptCount (itemLog argv c ++ t) = promptCount t.
Proof. unfold itemLog. now destruct (args.verbose argv). Qed.

(** The loop ends as the deletion of the accepted components does. *)
Lemma loop_outcome (components : list Component) (asked : nat) (disk : Disk) :
  outcome (loop components asked disk) =
  applyDeletes deleteComponent (accepted confirm components asked) disk.
Proof.
  revert asked disk. induction components as [|c rest IH]; intros asked disk;
    [reflexivity|].
  rewrite confirmDelete_cons. simpl accepted.
  destruct (confirm asked).
  - simpl applyDeletes. destruct (deleteComponent c disk) as [e|disk'];
      rewrite outcome_pair; [reflexivity|apply IH].
  - rewrite outcome_pair. apply IH.
Qed.

Lemma loop_returns (components : list Component) (asked : nat) (disk disk' : Disk) :
  outcome (loop components asked disk) = inr disk' ->
  deleteCalls (trace (loop components asked disk)) = accepted confirm components asked /\
  promptCount (trace (loop components asked disk)) = length components.
Proof.
  revert asked disk. induction components as [|c rest IH]; intros asked disk;
    [now split|].
  rewrite confirmDelete_cons. simpl accepted.
  destruct (confirm asked).
  - destruct (deleteComponent c disk) as [e|disk1];
      rewrite outcome_pair, trace_pair; [discriminate|].
    intros H. destruct (IH _ _ H) as [Hd Hp].
    rewrite deleteCalls_itemLog, promptCount_itemLog. simpl. now rewrite Hd, Hp.
  - rewrite outcome_pair, trace_pair. intros H. destruct (IH _ _ H) as [Hd Hp].
    rewrite deleteCalls_itemLog, promptCount_itemLog. simpl. now rewrite Hd, Hp.
Qed.

Lemma loopEvent_weaken (components : list Component) (t t' : list event) (c0 : Component)
  (ev : event) :
  incl t t' ->
  loopEvent argv components t ev -> loopEvent argv (c0 :: components) t' ev.
Proof.
  intros Hincl (c & Hc & H). exists c. split; [now right|].
  destruct H as [H|[H|[H1 H2]]]; auto.
Qed.

Lemma loop_events (components : list Component) (asked : nat) (disk : Disk) :
  Forall (loopEvent argv components (trace (loop components asked disk)))
         (trace (loop components asked disk)).
Proof.
  revert asked disk. induction components as [|c rest IH]; intros asked disk;
    [constructor|].
  assert (Hlog : forall t, Forall (loopEvent argv (c :: rest) t) (itemLog argv c)).
  { intros t. unfold itemLog. destruct (args.verbose argv) eqn:Hv; [|constructor].
    constructor; [|constructor]. exists c. split; [now left|]. now left. }
  assert (Hrest : forall t' asked' disk',
            incl (trace (loop rest asked' disk')) t' ->
            Forall (loopEvent argv (c :: rest) t') (trace (loop rest asked' disk'))).
  { intros t' asked' disk' Hincl. eapply Forall_impl; [|apply IH].
    intros ev. now apply loopEvent_weaken. }
  rewrite confirmDelete_cons.
  destruct (confirm asked).
  - destruct (deleteComponent c disk) as [e|disk1]; rewrite trace_pair.
    + apply Forall_app. split; [apply Hlog|].
      constructor; [exists c; split; [now left|]; right; left; now exists true|].
      constructor; [|constructor].
      exists c. split; [now left|]. right. right. split; [reflexivity|].
      apply in_or_app. right. now left.
    + apply Forall_app. split; [apply Hlog|].
      constructor; [exists c; split; [now left|]; right; left; now exists true|].
      constructor.
      * exists c. split; [now left|]. right. right. split; [reflexivity|].
        apply in_or_app. right. now left.
      * apply Hrest. intros ev Hev. apply in_or_app. right. right. now right.
  - rewrite trace_pair. apply Forall_app. split; [apply Hlog|].
    constructor; [exists c; split; [now left|]; right; left; now exists false|].
    apply Hrest. intros ev Hev. apply in_or_app. right. now right.
Qed.

End InteractiveLoop.

(** X8: the interactive loop ends exactly as deleting, in order, the
    components whose prompt was accepted does: it returns the disk these
    deletions leave, or throws what the first failing one throws.  When
    it returns, every component was asked about once and the delete
    capability was called on the accepted ones, in list order, and on no
    other. *)
Theorem X8_interactive_loop_deletes_the_accepted :
  forall (argv : args.t) (Disk : Type)
         (deleteComponent : Component -> Disk -> error + Disk) (confirm : nat -> bool)
         (components : list Component) (asked : nat) (disk : Disk),
    let run := confirmDelete argv deleteComponent confirm components asked disk in
    outcome run = applyDeletes deleteComponent (accepted confirm components asked) disk /\
    (forall disk', outcome run = inr disk' ->
       deleteCalls (trace run) = accepted confirm components asked /\
       promptCount (trace run) = length components).
Proof.
  intros argv Disk deleteComponent confirm components asked disk run. split.
  - apply loop_outcome.
  - intros disk'. apply loop_returns.
Qed.

(** X9: a deletion that throws ends the interactive loop on the spot.
    When the items before went through and the user accepts an item whose
    deletion throws, the trace ends with that call of the delete
    capability: the items that follow are neither shown, asked about nor
    deleted, and the workflow throws without its closing [Bye bye!]. *)
Theorem X9_failed_deletion_ends_the_loop :
  forall (argv : args.t) (Disk : Type)
         (deleteComponent : Component -> Disk -> error + Disk) (confirm : nat -> bool)
         (before after : list Component) (component : Component)
         (disk disk1 : Disk) (t1 : list event) (e : error),
    args.force argv = false ->
    confirmDelete argv deleteComponent confirm before 0 disk = (t1, inr disk1) ->
    confirm (length before) = true ->
    deleteComponent component disk1 = inl e ->
    deletionWorkflow argv deleteComponent confirm (before ++ component :: after) disk =
    (t1 ++ itemLog argv component
        ++ [itemPrompt component true; DeleteComponent component],
     inl e).
Proof.
  intros argv Disk deleteComponent confirm before after component disk disk1 t1 e
         Hforce Hbefore Hyes Hfail.
  unfold deletionWorkflow. rewrite Hforce.
  rewrite confirmDelete_app, Hbefore, bind_returns. simpl Nat.add.
  rewrite confirmDelete_cons, Hyes, Hfail, trace_pair, outcome_pair.
  reflexivity.
Qed.

Lemma X9_failed_deletion_ends_the_loop_witness :
  deletionWorkflow sampleArgs unlinkSample yesToAll ([Bar] ++ Baz :: [Foo]) staleDisk =
  ([itemPrompt Bar true; DeleteComponent Bar]
     ++ itemLog sampleArgs Baz ++ [itemPrompt Baz true; DeleteComponent Baz],
   inl "ENOENT").
Proof.
  exact (@X9_failed_deletion_ends_the_loop sampleArgs (list string) unlinkSample
           yesToAll [Bar] [Foo] Baz staleDisk ["/app/src/Foo.tsx"]
           [itemPrompt Bar true; DeleteComponent Bar] "ENOENT"
           eq_refl eq_refl eq_refl eq_refl).
Defined.

(** X10: the interactive loop only touches the components it was given.
    Every event of its trace is the content of one of them, logged in a
    verbose run only, a prompt about one of them, or a call of the delete
    capability on one of them whose prompt was answered yes in the same
    run. *)
Theorem X10_interactive_loop_events :
  forall (argv : args.t) (Disk : Type)
         (deleteComponent : Component -> Disk -> error + Disk) (confirm : nat -> bool)
         (components : list Component) (asked : nat) (disk : Disk),
    let run := confirmDelete argv deleteComponent confirm components asked disk in
    Forall (fun ev =>
              exists c,
                In c components /\
                ((ev = Log (content c) /\ args.verbose argv = true) \/
                 (exists answer, ev = itemPrompt c answer) \/
                 (ev = DeleteComponent c /\ In (itemPrompt c true) (trace run))))
           (trace run).
Proof.
  intros argv Disk deleteComponent confirm components asked disk run.
  exact (loop_events argv deleteComponent confirm components asked disk).
Qed.

(** * Further properties: the run as a whole *)

Lemma advisory_logs (argv : args.t) (baseUrl : string) :
  Forall (fun ev => exists text, ev = Log text) (trace (advisory argv baseUrl)).
Proof.
  unfold advisory.
  destruct (args.verbose argv && args.absoluteImports argv); [|constructor].
  destruct (truthy (args.path argv)); (constructor; [eexists; reflexivity|constructor]).
Qed.

Lemma walk_only_fs (argv : args.t) (baseUrl : string) (isAvailableFile : string -> bool)
  (parse : string -> error + option string) (start : string) (isSubfolder : bool)
  (d : listing) :
  Forall (fun ev => isFs ev = true)
         (trace (getComponentsFromDir argv baseUrl isAvailableFile parse start
                   isSubfolder d)).
Proof.
  apply Forall_forall. intros ev Hin. apply walk_located in Hin.
  destruct ev; simpl in *; tauto.
Qed.

(** The interactive workflow is the loop and, when it returns, the
    closing line. *)
Lemma workflow_interactive (argv : args.t) (Disk : Type)
  (deleteComponent : Component -> Disk -> error + Disk) (confirm : nat -> bool)
  (zombieComponents : list Component) (disk : Disk) :
  args.force argv = false ->
  deletionWorkflow argv deleteComponent confirm zombieComponents disk =
  (trace (confirmDelete argv deleteComponent confirm zombieComponents 0 disk)
     ++ match outcome (confirmDelete argv deleteComponent confirm zombieComponents 0 disk)
        with
        | inl _ => []
        | inr _ => [Log (nl ++ "Bye bye!")%string]
        end,
   outcome (confirmDelete argv deleteComponent confirm zombieComponents 0 disk)).
Proof.
  intros Hforce. unfold deletionWorkflow. rewrite Hforce.
  destruct (confirmDelete argv deleteComponent confirm zombieComponents 0 disk)
    as [t [e|disk']].
  - rewrite bind_throws, trace_pair, outcome_pair. now rewrite app_nil_r.
  - rewrite bind_returns, trace_pair, outcome_pair. reflexivity.
Qed.

Lemma workflow_interactive_events (argv : args.t) (Disk : Type)
  (deleteComponent : Component -> Disk -> error + Disk) (confirm : nat -> bool)
  (zombieComponents : list Component) (disk : Disk) (ev : event) :
  args.force argv = false ->
  In ev (trace (deletionWorkflow argv deleteComponent confirm zombieComponents disk)) ->
  ev = Log (nl ++ "Bye bye!")%string \/
  loopEvent argv zombieComponents
    (trace (confirmDelete argv deleteComponent confirm zombieComponents 0 disk)) ev.
Proof.
  intros Hforce. rewrite workflow_interactive, trace_pair by exact Hforce.
  intros Hin. apply in_app_or in Hin. destruct Hin as [Hin|Hin].
  - right. revert ev Hin. apply Forall_forall. apply loop_events.
  - left. destruct (outcome (confirmDelete argv deleteComponent confirm
                               zombieComponents 0 disk)); [destruct Hin|].
    destruct Hin as [<-|[]]. reflexivity.
Qed.


Lemma length_getUnusedComponents (isImported : string -> string -> bool)
  (components : list Component) :
  length (getUnusedComponents isImported components) <= length components.
Proof. rewrite getUnusedComponents_filter. apply filter_length_le. Qed.

(** X11: an interactive run scans first and deletes afterwards.  Its
    trace splits in two: a first part without any prompt or call of the
    delete capability, and a second part without any filesystem read and
    without spinner activity; and whenever the second part is not empty
    the spinner was stopped in the first.  No file is listed, stat'ed or
    read again once the first question has been asked. *)
Theorem X11_interactive_run_scans_then_deletes :
  forall (argv : args.t) (Disk : Type)
         (deleteComponent : Component -> Disk -> error + Disk) (confirm : nat -> bool)
         (baseUrl : string) (isAvailableFile : string -> bool)
         (parse : string -> error + option string)
         (isImported : string -> string -> bool)
         (cwd : string) (fs : string -> listing) (disk : Disk),
    args.force argv = false ->
    exists scanning deleting : list event,
      trace (main argv deleteComponent confirm baseUrl isAvailableFile parse isImported
                  cwd fs disk) = scanning ++ deleting /\
      Forall (fun ev => isPromptOrDelete ev = false) scanning /\
      Forall (fun ev => isFs ev = false /\ ev <> SpinnerStop /\
                        forall text, ev <> SpinnerStart text) deleting /\
      (deleting <> [] -> In SpinnerStop scanning).
Proof.
  intros argv Disk deleteComponent confirm baseUrl isAvailableFile parse isImported
         cwd fs disk Hforce.
  assert (Hadv : Forall (fun ev => isPromptOrDelete ev = false)
                        (trace (advisory argv baseUrl))).
  { eapply Forall_impl; [|apply advisory_logs]. now intros ev [text ->]. }
  assert (Hwalk : forall d,
            Forall (fun ev => isPromptOrDelete ev = false)
                   (trace (getComponentsFromDir argv baseUrl isAvailableFile parse
                             (startPath argv cwd) false d))).
  { intros d. eapply Forall_impl; [|apply walk_only_fs]. intros ev. now destruct ev. }
  destruct (outcome (getComponentsFromDir argv baseUrl isAvailableFile parse
                       (startPath argv cwd) false (fs (scanRoot argv baseUrl cwd))))
    as [e|components] eqn:Hout.
  - rewrite main_aborts with (e := e) by exact Hout. rewrite trace_pair.
    eexists. exists []. split; [now rewrite app_nil_r|].
    split; [|split; [constructor|intros H; now elim H]].
    apply Forall_app. split; [exact Hadv|]. constructor; [reflexivity|apply Hwalk].
  - rewrite main_returns with (components := components) by exact Hout.
    rewrite trace_pair.
    set (found := Log (nl ++ nl ++ showNat (length components)
                          ++ " components found! " ++ nl)%string).
    set (unused := Log (showNat (length (getUnusedComponents isImported components))
                          ++ " unused components found! " ++ nl)%string).
    set (workflow := trace (deletionWorkflow argv deleteComponent confirm
                              (getUnusedComponents isImported components) disk)).
    exists (trace (advisory argv baseUrl)
              ++ SpinnerStart "Searching zombie components"
              :: trace (getComponentsFromDir argv baseUrl isAvailableFile parse
                          (startPath argv cwd) false (fs (scanRoot argv baseUrl cwd)))
              ++ [found; SpinnerStop; unused]), workflow.
    split; [|split; [|split]].
    + rewrite <- !app_assoc. simpl. rewrite <- !app_assoc. reflexivity.
    + apply Forall_app. split; [exact Hadv|]. constructor; [reflexivity|].
      apply Forall_app. split; [apply Hwalk|]. now repeat constructor.
    + apply Forall_forall. intros ev Hev.
      apply workflow_interactive_events in Hev; [|exact Hforce].
      destruct Hev as [->|Hev].
      * split; [reflexivity|]. split; [discriminate|]. intros text. discriminate.
      * destruct Hev as (c & _ & [[-> _]|[[answer ->]|[-> _]]]);
          (split; [reflexivity|]; split; [discriminate|]; intros text; discriminate).
    + intros _. apply in_or_app. right. right. apply in_or_app. right.
      right. now left.
Qed.

Lemma X11_interactive_run_scans_then_deletes_witness :
  exists scanning deleting : list event,
    trace (main sampleArgs unlinkSample yesToAll "src" isAvailableFileModel parseSample
                isImportedAsTag "/app" (fun _ => sampleTree) sampleDisk)
    = scanning ++ deleting /\
    Forall (fun ev => isPromptOrDelete ev = false) scanning /\
    Forall (fun ev => isFs ev = false /\ ev <> SpinnerStop /\
                      forall text, ev <> SpinnerStart text) deleting /\
    (deleting <> [] -> In SpinnerStop scanning).
Proof.
  exact (@X11_interactive_run_scans_then_deletes sampleArgs (list string) unlinkSample
           yesToAll "src" isAvailableFileModel parseSample isImportedAsTag "/app"
           (fun _ => sampleTree) sampleDisk eq_refl).
Defined.

(** X12: when the walk returns, [main] reports what was found before it
    deletes anything.  Its trace is the advisory, the spinner start, the
    calls of the walk, the line with the number of components the walk
    returned, the spinner stop, the line with the number of components
    that no scanned content refers to, and then the trace of the deletion
    workflow run on exactly these unused components, whose outcome is the
    outcome of the run.  The second number never exceeds the first. *)
Theorem X12_main_reports_counts_then_deletes :
  forall (argv : args.t) (Disk : Type)
         (deleteComponent : Component -> Disk -> error + Disk) (confirm : nat -> bool)
         (baseUrl : string) (isAvailableFile : string -> bool)
         (parse : string -> error + option string)
         (isImported : string -> string -> bool)
         (cwd : string) (fs : string -> listing) (disk : Disk)
         (components : list Component),
    let walked :=
      getComponentsFromDir argv baseUrl isAvailableFile parse (startPath argv cwd) false
        (fs (scanRoot argv baseUrl cwd)) in
    let zombieComponents := getUnusedComponents isImported components in
    let workflow := deletionWorkflow argv deleteComponent confirm zombieComponents disk in
    outcome walked = inr components ->
    main argv deleteComponent confirm baseUrl isAvailableFile parse isImported cwd fs disk =
    (trace (advisory argv baseUrl)
       ++ SpinnerStart "Searching zombie components"
       :: trace walked
       ++ Log (nl ++ nl ++ showNat (length components) ++ " components found! " ++ nl)%string
       :: SpinnerStop
       :: Log (showNat (length zombieComponents) ++ " unused components found! " ++ nl)%string
       :: trace workflow,
     outcome workflow) /\
    length zombieComponents <= length components.
Proof.
  intros argv Disk deleteComponent confirm baseUrl isAvailableFile parse isImported
         cwd fs disk components walked zombieComponents workflow Hout.
  split; [|apply length_getUnusedComponents].
  now apply main_returns.
Qed.

Lemma X12_main_reports_counts_then_deletes_witness :
  main sampleArgs unlinkSample yesToAll "src" isAvailableFileModel parseSample
       isImportedAsTag "/app" (fun _ => sampleTree) sampleDisk =
  (trace (advisory sampleArgs "src")
     ++ SpinnerStart "Searching zombie components"
     :: trace (getComponentsFromDir sampleArgs "src" isAvailableFileModel parseSample
                 (startPath sampleArgs "/app") false sampleTree)
     ++ Log (nl ++ nl ++ showNat (length [Foo; Bar; Baz]) ++ " components found! " ++ nl)%string
     :: SpinnerStop
     :: Log (showNat (length (getUnusedComponents isImportedAsTag [Foo; Bar; Baz]))
             ++ " unused components found! " ++ nl)%string
     :: trace (deletionWorkflow sampleArgs unlinkSample yesToAll
                 (getUnusedComponents isImportedAsTag [Foo; Bar; Baz]) sampleDisk),
   outcome (deletionWorkflow sampleArgs unlinkSample yesToAll
              (getUnusedComponents isImportedAsTag [Foo; Bar; Baz]) sampleDisk)) /\
  length (getUnusedComponents isImportedAsTag [Foo; Bar; Baz]) <= length [Foo; Bar; Baz].
Proof.
  exact (@X12_main_reports_counts_then_deletes sampleArgs (list string) unlinkSample
           yesToAll "src" isAvailableFileModel parseSample isImportedAsTag "/app"
           (fun _ => sampleTree) sampleDisk [Foo; Bar; Baz] eq_refl).
Defined.

(** X13: an interactive run deletes nothing but zombies the user
    accepted.  Every call of the delete capability in the trace of [main]
    is made on a component that the walk returned, to whose name no
    content returned by the walk refers, and about which a prompt of the
    same run was answered yes. *)
Theorem X13_interactive_run_deletes_only_accepted_zombies :
  forall (argv : args.t) (Disk : Type)
         (deleteComponent : Component -> Disk -> error + Disk) (confirm : nat -> bool)
         (baseUrl : string) (isAvailableFile : string -> bool)
         (parse : string -> error + option string)
         (isImported : string -> string -> bool)
         (cwd : string) (fs : string -> listing) (disk : Disk) (c : Component),
    let run :=
      main argv deleteComponent confirm baseUrl isAvailableFile parse isImported
           cwd fs disk in
    args.force argv = false ->
    In (DeleteComponent c) (trace run) ->
    In (itemPrompt c true) (trace run) /\
    exists components,
      outcome (getComponentsFromDir argv baseUrl isAvailableFile parse
                 (startPath argv cwd) false (fs (scanRoot argv baseUrl cwd)))
      = inr components /\
      In c components /\
      forall f, In f components -> isImported (name c) (content f) = false.
Proof.
  intros argv Disk deleteComponent confirm baseUrl isAvailableFile parse isImported
         cwd fs disk c run Hforce. unfold run.
  destruct (outcome (getComponentsFromDir argv baseUrl isAvailableFile parse
                       (startPath argv cwd) false (fs (scanRoot argv baseUrl cwd))))
    as [e|components] eqn:Hout.
  - rewrite main_aborts with (e := e) by exact Hout. rewrite trace_pair.
    intros Hin. exfalso. apply in_app_or in Hin. destruct Hin as [Hin|[Hin|Hin]].
    + pose proof (advisory_logs argv baseUrl) as Hadv.
      rewrite Forall_forall in Hadv. destruct (Hadv _ Hin) as [text E]. discriminate E.
    + discriminate Hin.
    + pose proof (walk_only_fs argv baseUrl isAvailableFile parse (startPath argv cwd)
                    false (fs (scanRoot argv baseUrl cwd))) as Hfs.
      rewrite Forall_forall in Hfs. specialize (Hfs _ Hin). discriminate Hfs.
  - rewrite main_returns with (components := components) by exact Hout.
    rewrite trace_pair. intros Hin.
    assert (Hwf : In (DeleteComponent c)
                     (trace (deletionWorkflow argv deleteComponent confirm
                               (getUnusedComponents isImported components) disk))).
    { apply in_app_or in Hin. destruct Hin as [Hin|[Hin|Hin]].
      - pose proof (advisory_logs argv baseUrl) as Hadv.
        rewrite Forall_forall in Hadv. destruct (Hadv _ Hin) as [text E]. discriminate E.
      - discriminate Hin.
      - apply in_app_or in Hin. destruct Hin as [Hin|[Hin|[Hin|[Hin|Hin]]]];
          try discriminate Hin; [|exact Hin].
        pose proof (walk_only_fs argv baseUrl isAvailableFile parse (startPath argv cwd)
                      false (fs (scanRoot argv baseUrl cwd))) as Hfs.
        rewrite Forall_forall in Hfs. specialize (Hfs _ Hin). discriminate Hfs. }
    pose proof Hwf as Hev.
    apply workflow_interactive_events in Hev; [|exact Hforce].
    destruct Hev as [E|(c' & Hc' & [[E _]|[[answer E]|[E Hprompt]]])];
      try discriminate E.
    injection E as <-.
    split.
    + apply in_or_app. right. right. apply in_or_app. right. do 3 right.
      rewrite workflow_interactive, trace_pair by exact Hforce.
      apply in_or_app. now left.
    + exists components. split; [reflexivity|].
      rewrite getUnusedComponents_filter, filter_In, negb_true_iff, referenced_false
        in Hc'.
      exact Hc'.
Qed.

Lemma X13_interactive_run_deletes_only_accepted_zombies_witness :
  In (itemPrompt Bar true)
     (trace (main sampleArgs unlinkSample yesToAll "src" isAvailableFileModel parseSample
                  isImportedAsTag "/app" (fun _ => sampleTree) sampleDisk)) /\
  exists components,
    outcome (getComponentsFromDir sampleArgs "src" isAvailableFileModel parseSample
               (startPath sampleArgs "/app") false sampleTree) = inr components /\
    In Bar components /\
    forall f, In f components -> isImportedAsTag (name Bar) (content f) = false.
Proof.
  apply (@X13_interactive_run_deletes_only_accepted_zombies sampleArgs (list string)
           unlinkSample yesToAll "src" isAvailableFileModel parseSample isImportedAsTag
           "/app" (fun _ => sampleTree) sampleDisk Bar eq_refl).
  vm_compute. do 18 right. left. reflexivity.
Defined.

(** * Further properties: one component per file *)

Lemma append_assoc3 (a b c : string) : ((a ++ b) ++ c = a ++ b ++ c)%string.
Proof. induction a as [|x a IH]; simpl; [reflexivity|now rewrite IH]. Qed.

Lemma append_cancel_l (a b c : string) : (a ++ b = a ++ c)%string -> b = c.
Proof.
  induction a as [|x a IH]; simpl; [auto|].
  intros H. injection H as H. auto.
Qed.

Lemma joinPath_tail (root : string) (names : list string) :
  joinPath root names = (root ++ pathTail names)%string.
Proof.
  revert root. induction names as [|n rest IH]; intros root.
  - simpl. induction root as [|x root IHroot]; simpl; [reflexivity|now rewrite <- IHroot].
  - change (joinPath root (n :: rest)) with (joinPath (root ++ "/" ++ n)%string rest).
    rewrite IH. simpl pathTail. rewrite !append_assoc3. reflexivity.
Qed.

Lemma pathTail_shaped (names : list string) : tailShaped (pathTail names).
Proof.
  destruct names as [|n rest]; [now left|].
  right. simpl. eauto.
Qed.

Lemma slashFree_no_split (fileName before after : string) :
  slashFree fileName -> fileName <> (before ++ "/" ++ after)%string.
Proof.
  unfold slashFree. intros H ->.
  assert (includes (before ++ "/" ++ after) "/" = true)
    by (apply includes_substring; eauto).
  congruence.
Qed.

Lemma slashFree_tail (c : ascii) (fileName : string) :
  slashFree (String c fileName) -> c <> "/"%char /\ slashFree fileName.
Proof.
  intros H. split.
  - intros ->. now apply (slashFree_no_split "" fileName H).
  - unfold slashFree. destruct (includes fileName "/") eqn:E; [|reflexivity].
    apply includes_substring in E. destruct E as (before & after & ->).
    now elim (slashFree_no_split (String c before) after H).
Qed.

(** A name without [/] is read back from a path segment. *)
Lemma segment_injective (f f' t t' : string) :
  slashFree f -> slashFree f' -> tailShaped t -> tailShaped t' ->
  (f ++ t = f' ++ t')%string -> f = f'.
Proof.
  revert f'. induction f as [|c f IH]; intros f' Hf Hf' Ht Ht' E.
  - destruct f' as [|c' f']; [reflexivity|]. simpl in E.
    apply slashFree_tail in Hf'. destruct Hf' as [Hc' _].
    destruct Ht as [->|[rest ->]]; [discriminate E|].
    injection E as <- _. now elim Hc'.
  - apply slashFree_tail in Hf. destruct Hf as [Hc Hf].
    destruct f' as [|c' f'].
    + simpl in E. destruct Ht' as [->|[rest ->]]; [discriminate E|].
      injection E as -> _. now elim Hc.
    + apply slashFree_tail in Hf'. destruct Hf' as [_ Hf'].
      simpl in E. injection E as <- E. f_equal. now apply IH with (f' := f').
Qed.

Section OnePerFile.

Variable argv : args.t.
Variable baseUrl : string.
Variable isAvailableFile : string -> bool.
Variable parse : string -> error + option string.

Local Abbreviation walk := (getComponentsFromDir argv baseUrl isAvailableFile parse).
Local Abbreviation scan := (scanEntries argv baseUrl isAvailableFile parse).
Local Abbreviation step := (visit argv isAvailableFile parse walk).

(** The path of a component starts with the directory listed and the name
    of the entry it was found under. *)
Lemma scan_paths (U : string) (files : list (string * node))
  (components : list Component) (c : Component) :
  outcome (scan U files []) = inr components ->
  In c components ->
  exists fileName n t,
    In (fileName, n) files /\ tailShaped t /\
    path c = (U ++ "/" ++ fileName ++ t)%string.
Proof.
  intros Hout Hc.
  assert (Hwalk : outcome (walk U true (Entries files)) = inr components)
    by (rewrite walk_entries, outcome_pair, useFullPath_subfolder; exact Hout).
  destruct (walk_discovered _ _ _ _ _ _ _ Hwalk c Hc)
    as (dirs & f & (files' & Hat & Hin) & _ & Hp & _).
  rewrite useFullPath_subfolder, joinPath_tail in Hp.
  destruct dirs as [|dirName dirs].
  - inversion Hat; subst. exists f, (File (inr (content c))), "".
    split; [exact Hin|]. split; [now left|]. exact Hp.
  - inversion Hat; subst.
    exists dirName, (Dir sub), (pathTail (dirs ++ [f])).
    split; [assumption|]. split; [apply pathTail_shaped|]. exact Hp.
Qed.

Lemma scan_one (U : string) (entry : string * node) :
  outcome (scan U [entry] []) = outcome (step U [] entry).
Proof.
  rewrite scan_cons_outcome, scan_nil, outcome_pair.
  destruct (outcome (step U [] entry)) as [e|found]; [reflexivity|].
  now rewrite app_nil_r.
Qed.

Lemma walk_paths_distinct (d : listing) :
  wellFormed d ->
  forall (start : string) (isSubfolder : bool) (components : list Component),
    outcome (walk start isSubfolder d) = inr components ->
    NoDup (map path components).
Proof.
  induction 1 as [e|files Hnames Hfree Hsub IH]; intros start isSubfolder components.
  - rewrite walk_fails. discriminate.
  - rewrite walk_entries, outcome_pair.
    set (U := useFullPath argv baseUrl start isSubfolder). clearbody U.
    clear Hsub. revert components.
    induction files as [|[fileName n] rest IHrest]; intros components.
    + rewrite scan_nil, outcome_pair. intros H. injection H as <-. constructor.
    + rewrite scan_cons_outcome.
      destruct (outcome (step U [] (fileName, n))) as [e|found] eqn:Hstep;
        [discriminate|].
      destruct (outcome (scan U rest [])) as [e|found'] eqn:Hrest; [discriminate|].
      intros H. injection H as <-.
      simpl in Hnames. apply NoDup_cons_iff in Hnames. destruct Hnames as [Hfresh Hnames].
      assert (Hfound' : NoDup (map path found')).
      { apply IHrest; [exact Hnames| | |reflexivity].
        - intros f m Hin. apply (Hfree f m). now right.
        - intros dn sub Hin. apply (IH dn sub). now right. }
      assert (Hfound : NoDup (map path found)).
      { destruct n as [e|read|sub].
        - rewrite step_stat_fails in Hstep. discriminate.
        - destruct (isAvailableFile fileName) eqn:Hel.
          + destruct read as [e|text].
            * rewrite step_file_unreadable in Hstep by exact Hel. discriminate.
            * rewrite step_file_read, outcome_pair in Hstep by exact Hel.
              injection Hstep as <-.
              destruct (nonEmpty (getComponentName parse text)); simpl;
                repeat constructor; auto.
          + rewrite step_file_ineligible, outcome_pair in Hstep by exact Hel.
            injection Hstep as <-. constructor.
        - destruct (skipped argv fileName) eqn:Hskip.
          + rewrite step_dir_skipped, outcome_pair in Hstep by exact Hskip.
            injection Hstep as <-. constructor.
          + rewrite step_dir_entered, outcome_pair in Hstep by exact Hskip.
            destruct (outcome (walk (U ++ "/" ++ fileName)%string true sub))
              as [e|foundSub] eqn:Hwalk; [discriminate|].
            injection Hstep as <-. simpl.
            apply (IH fileName sub (or_introl eq_refl) _ _ _ Hwalk). }
      rewrite map_app. apply NoDup_app; [exact Hfound|exact Hfound'|].
      intros p Hp Hp'.
      apply in_map_iff in Hp. destruct Hp as (c & <- & Hc).
      apply in_map_iff in Hp'. destruct Hp' as (c' & E & Hc').
      rewrite <- scan_one in Hstep.
      destruct (@scan_paths _ _ _ _ Hstep Hc) as (f & m & t & Hf & Ht & Hpath).
      destruct (@scan_paths _ _ _ _ Hrest Hc') as (f' & m' & t' & Hf' & Ht' & Hpath').
      destruct Hf as [Hf|[]]. injection Hf as <- <-.
      rewrite Hpath, Hpath' in E.
      apply append_cancel_l in E. simpl in E. injection E as E.
      apply segment_injective in E; [|apply (Hfree f' m'); now right
                                     |apply (Hfree fileName n); now left|exact Ht'|exact Ht].
      subst f'. apply Hfresh. apply in_map_iff. exists (fileName, m'). auto.
Qed.

End OnePerFile.

Lemma sampleTree_wellFormed : wellFormed sampleTree.
Proof.
  assert (Hw : wellFormed widgets).
  { constructor.
    - simpl. repeat constructor; simpl; intuition discriminate.
    - intros f n [E|[E|[E|[]]]]; injection E as <- _; reflexivity.
    - intros dn sub [E|[E|[E|[]]]]; discriminate E. }
  assert (Hv : wellFormed vendor).
  { constructor.
    - simpl. repeat constructor; simpl; intuition discriminate.
    - intros f n [E|[]]; injection E as <- _; reflexivity.
    - intros dn sub [E|[]]; discriminate E. }
  constructor.
  - simpl. repeat constructor; simpl; intuition discriminate.
  - intros f n [E|[E|[E|[E|[]]]]]; injection E as <- _; reflexivity.
  - intros dn sub [E|[E|[E|[E|[]]]]]; try discriminate E; injection E as _ <-; assumption.
Qed.

(** X14: one component per file.  In a tree as a filesystem gives them
    (in each directory the names are pairwise distinct and none contains
    [/]), the components that the walk returns have pairwise distinct
    paths: no file is yielded twice, and a path names one component. *)
Theorem X14_component_paths_are_distinct :
  forall (argv : args.t) (baseUrl : string) (isAvailableFile : string -> bool)
         (parse : string -> error + option string)
         (start : string) (isSubfolder : bool) (d : listing)
         (components : list Component),
    wellFormed d ->
    outcome (getComponentsFromDir argv baseUrl isAvailableFile parse start isSubfolder d)
    = inr components ->
    NoDup (map path components).
Proof.
  intros argv baseUrl isAvailableFile parse start isSubfolder d components Hwf Hout.
  exact (walk_paths_distinct argv baseUrl isAvailableFile parse Hwf start isSubfolder Hout).
Qed.

Lemma X14_component_paths_are_distinct_witness :
  NoDup (map path [Foo; Bar; Baz]).
Proof.
  exact (@X14_component_paths_are_distinct sampleArgs "src" isAvailableFileModel
           parseSample "/app" false sampleTree [Foo; Bar; Baz]
           sampleTree_wellFormed eq_refl).
Defined.

(** * Further properties: the advisory and a run declined throughout *)

(** X15: the advisory tells what the run does.  It is printed only in a
    verbose run with absolute imports; when it announces the explicit
    path, that path is the directory the walk lists first; when it
    announces the baseUrl, the walk lists the working directory followed
    by [/] and that baseUrl first. *)
Theorem X15_advisory_matches_the_scan_root :
  forall (argv : args.t) (baseUrl cwd : string),
    (args.verbose argv && args.absoluteImports argv = false ->
     advisory argv baseUrl = ([], inr tt)) /\
    (args.verbose argv && args.absoluteImports argv = true ->
     (exists p,
        args.path argv = Some p /\ p <> "" /\
        advisory argv baseUrl =
          ([Log ("--absoluteImports AND --path conflict." ++ tab ++ " Will use path: '"
                 ++ p ++ "' instead of absoluteImports")%string], inr tt) /\
        scanRoot argv baseUrl cwd = p) \/
     (truthy (args.path argv) = false /\
      advisory argv baseUrl =
        ([Log ("--absoluteImports. " ++ tab ++ "Will use baseUrl: '" ++ baseUrl ++ "'")%string],
         inr tt) /\
      scanRoot argv baseUrl cwd = (cwd ++ "/" ++ baseUrl)%string)).
Proof.
  intros argv baseUrl cwd. unfold advisory, scanRoot, startPath, useFullPath, pathText.
  split; intros Hflags; rewrite Hflags; [reflexivity|].
  apply andb_true_iff in Hflags. destruct Hflags as [_ Habs]. rewrite Habs.
  destruct (args.path argv) as [p|]; simpl.
  - destruct p as [|a p]; simpl.
    + right. auto.
    + left. exists (String a p). repeat split; auto. discriminate.
  - right. auto.
Qed.

Lemma deleteCalls_app (t1 t2 : list event) :
  deleteCalls (t1 ++ t2) = deleteCalls t1 ++ deleteCalls t2.
Proof.
  induction t1 as [|ev t1 IH]; [reflexivity|].
  destruct ev; simpl; now rewrite IH.
Qed.

(** X16: answering no to every prompt is a dry run.  The interactive
    workflow then asks once about each unused component, never calls the
    delete capability, cannot throw, and returns the disk as it was. *)
Theorem X16_declining_everything_changes_nothing :
  forall (argv : args.t) (Disk : Type)
         (deleteComponent : Component -> Disk -> error + Disk) (confirm : nat -> bool)
         (zombieComponents : list Component) (disk : Disk),
    let run := deletionWorkflow argv deleteComponent confirm zombieComponents disk in
    args.force argv = false ->
    (forall asked, confirm asked = false) ->
    outcome run = inr disk /\
    deleteCalls (trace run) = [] /\
    promptCount (trace run) = length zombieComponents.
Proof.
  intros argv Disk deleteComponent confirm zombieComponents disk run Hforce Hno.
  unfold run. rewrite workflow_interactive, trace_pair, outcome_pair by exact Hforce.
  assert (Hacc : forall cs asked, accepted confirm cs asked = []).
  { induction cs as [|c rest IH]; intros asked; simpl; [reflexivity|].
    now rewrite Hno. }
  assert (Hout : outcome (confirmDelete argv deleteComponent confirm zombieComponents 0 disk)
                 = inr disk).
  { rewrite loop_outcome, Hacc. reflexivity. }
  destruct (loop_returns argv deleteComponent confirm zombieComponents 0 disk Hout)
    as [Hd Hp].
  rewrite Hout. split; [reflexivity|].
  rewrite deleteCalls_app, promptCount_app, Hd, Hp, Hacc. simpl.
  split; [reflexivity|apply Nat.add_0_r].
Qed.

Lemma X16_declining_everything_changes_nothing_witness :
  outcome (deletionWorkflow sampleArgs unlinkSample (fun _ => false) [Bar; Baz] sampleDisk)
  = inr sampleDisk /\
  deleteCalls (trace (deletionWorkflow sampleArgs unlinkSample (fun _ => false)
                        [Bar; Baz] sampleDisk)) = [] /\
  promptCount (trace (deletionWorkflow sampleArgs unlinkSample (fun _ => false)
                        [Bar; Baz] sampleDisk)) = length [Bar; Baz].
Proof.
  exact (@X16_declining_everything_changes_nothing sampleArgs (list string) unlinkSample
           (fun _ => false) [Bar; Baz] sampleDisk eq_refl (fun _ => eq_refl)).
Defined.
